(** * Comparative Yield -> Production: the computational core of [src/App.jsx]

    A shallow embedding of the helper functions, the template builder, the
    calibration fit and the production aggregator of [src/App.jsx], and the
    properties of them that the specification states; then the handlers of
    the component, and what the code guarantees besides.

    Modelling conventions
    - a JavaScript Number is a binary64 float ([PrimFloat.float]); the
      arithmetic of the source is the arithmetic of the kernel's floats;
    - a JavaScript string is a [string] whose characters are the code
      units 0..255; white space and line terminators are those of
      ECMAScript in that range;
    - the own properties of [perKA] and [slopes] (plain objects used as
      maps from a unit code) are a [gmap string _]; a plain object also
      inherits the members of [Object.prototype], whose names are listed in
      [Object_prototype_keys], and a read [perKA[k]] finds them; [groups]
      (whose values are enumerated, in insertion order, and whose keys all
      hold "||") is an association list; a JavaScript [Set] is a [gset]
      where only membership is asked and an insertion-ordered list where it
      is enumerated;
    - [count] fields are exact integers: a JavaScript array has fewer than
      2^32 elements, so the counters of the source never leave the range
      where [count += 1] is exact;
    - what the host provides and the source only calls ([Number] applied to
      a string, [String] applied to a number or a date, [localeCompare],
      [Math.pow] at base 10) is a variable of the section the definitions
      live in;
    - a handler of the component is a function from the state it runs in
      (the two collections and the status) to the state it leaves; a file
      is the workbook [readExcelFile] resolves with, or none when it
      rejects; an export also gives what [downloadXlsxFromJson] did, an
      alert or a file written. *)

From stdpp Require Import gmap strings list sorting.
From Stdlib Require Import ZArith Floats Ascii String DecimalString.

Set Warnings "-inexact-float".
Local Open Scope Z_scope.

(** ** JavaScript values *)

(** A [Date] object: its time value ([NaN] for an invalid date) and what the
    local-time getters return for it. *)
Record JsDate := mkDate {
  timeValue : float;
  getFullYear : Z;
  getMonth : Z;
  getDate : Z
}.

Inductive JsVal :=
| JUndefined
| JNull
| JBoolean (b : bool)
| JNumber (n : float)
| JString (s : string)
| JDateObj (d : JsDate).

(** ** Numbers *)

Definition Number_isFinite (n : float) : bool := PrimFloat.is_finite n.
Definition isNaN (n : float) : bool := PrimFloat.is_nan n.

(** The Number of an integer of magnitude below 2^63 (exact below 2^53). *)
Definition Z2float (z : Z) : float :=
  if z <? 0 then (- PrimFloat.of_uint63 (Uint63.of_Z (- z)))%float
  else PrimFloat.of_uint63 (Uint63.of_Z z).

(** [floor (x + 1/2)] for [x = (-1)^s * m * 2^e]. *)
Definition round_half_up (s : bool) (m : positive) (e : Z) : Z :=
  let num := if s then Z.neg m else Z.pos m in
  if 0 <=? e then num * 2 ^ e
  else (2 * num + 2 ^ (- e)) / 2 ^ (1 - e).

(** [Math.round]: a value that is not finite or is integral is returned as
    it is; (0, 0.5) gives +0 and [-0.5, -0) gives -0; otherwise the integer
    closest to [x], the one closer to +infinity on a tie. *)
Definition Math_round (x : float) : float :=
  match Prim2SF x with
  | S754_finite s m e =>
      if 0 <=? e then x
      else if ((0 <? x) && (x <? 0.5))%float then 0%float
      else if ((x <? 0) && (-0.5 <=? x))%float then (-0)%float
      else Z2float (round_half_up s m e)
  | _ => x
  end.

(** Rounding half away from zero, as the specification words [round]:
    the mirror image of [Math_round] on the negative numbers. *)
Definition round_half_away (x : float) : float :=
  if (x <? 0)%float then (- Math_round (- x))%float else Math_round x.

(** [x] is a negative number half way between two integers: for
    [x = - m * 2^e] with [e < 0], the part of [m] below [2^-e] is
    [2^(-e-1)]. *)
Definition negative_tie (x : float) : bool :=
  match Prim2SF x with
  | S754_finite true m e =>
      (e <? 0) && (Z.pos m mod 2 ^ (- e) =? 2 ^ (- e - 1))
  | _ => false
  end.

(** ** Strings *)

Definition code (c : ascii) : N := N_of_ascii c.

(** [WhiteSpace] and [LineTerminator] of ECMAScript among the code units
    below 256: TAB, LF, VT, FF, CR, SP, NBSP. *)
Definition isWhiteSpace (c : ascii) : bool :=
  let n := code c in
  ((9 <=? n) && (n <=? 13) || (n =? 32) || (n =? 160))%N.

Definition isLineTerminator (c : ascii) : bool :=
  let n := code c in ((n =? 10) || (n =? 13))%N.

(** [[A-Za-z]] *)
Definition isLetter (c : ascii) : bool :=
  let n := code c in
  ((65 <=? n) && (n <=? 90) || (97 <=? n) && (n <=? 122))%N.

(** The canonical form of a character under the [i] flag, as far as a match
    with an ASCII letter goes: a lower-case ASCII letter becomes its capital,
    and no other code unit becomes an ASCII letter. *)
Definition canonicalize (c : ascii) : ascii :=
  let n := code c in
  if ((97 <=? n) && (n <=? 122))%N then ascii_of_N (n - 32) else c.

Fixpoint eq_ignore_case (s t : string) : bool :=
  match s, t with
  | EmptyString, EmptyString => true
  | String a s', String b t' =>
      Ascii.eqb (canonicalize a) (canonicalize b) && eq_ignore_case s' t'
  | _, _ => false
  end.

Fixpoint trimStart (s : string) : string :=
  match s with
  | String c s' => if isWhiteSpace c then trimStart s' else s
  | EmptyString => EmptyString
  end.

Fixpoint trimEnd (s : string) : string :=
  match s with
  | String c s' =>
      match trimEnd s' with
      | EmptyString => if isWhiteSpace c then EmptyString else String c EmptyString
      | t => String c t
      end
  | EmptyString => EmptyString
  end.

(** [String.prototype.trim] *)
Definition trim (s : string) : string := trimEnd (trimStart s).

(** [s.split(sep)] for a separator of one character. *)
Fixpoint split (sep : ascii) (s : string) : list string :=
  match s with
  | EmptyString => [EmptyString]
  | String c s' =>
      if Ascii.eqb c sep then EmptyString :: split sep s'
      else match split sep s' with
           | p :: ps => String c p :: ps
           | [] => [String c EmptyString]
           end
  end.

(** [String(n).padStart(2, "0")] on the digits of [n]. *)
Definition padStart2 (s : string) : string :=
  match String.length s with
  | O => "00"
  | S O => String "0" s
  | _ => s
  end.

(** [String(z)] for an integral Number. *)
Definition String_of_Z (z : Z) : string := NilZero.string_of_int (Z.to_int z).

(** ** Rows *)

(** A processed Comparative Yield row, as [handleUploadRaw] builds it: the
    four normalised fields (all strings) beside the sheet's own columns, of
    which the computation reads [nValue]. *)
Module CY.
Record row := mk {
  DATE : string;
  ALLOTMENT : string;
  PASTURE : string;
  KA : string;
  nValue : JsVal
}.
End CY.

(** A line of the data-entry template. *)
Module Template.
Record row := mk {
  DATE : string;
  ALLOTMENT : string;
  PASTURE : string;
  KA : string;
  BAG : Z;
  GW : string;
  Dry_WT : string;
  minus_BAG : string;
  NET_WT : string
}.
End Template.

(** A filled calibration row, as [handleUploadProduction] keeps it: the
    cells of the columns [KA], [BAG #] and [NET WT.]. *)
Module Cal.
Record row := mk {
  KA : JsVal;
  BAG : JsVal;
  NET_WT : JsVal
}.
End Cal.

(** The accumulator of one unit code in [computeSlopesByKA]. *)
Module Stats.
Record t := mk {
  sumXY : float;
  sumX2 : float;
  count : Z
}.
End Stats.

(** The accumulator of one key in [computeProductionFromCY]. *)
Module Group.
Record t := mk {
  DATE : string;
  ALLOTMENT : string;
  PASTURE : string;
  KA : string;
  sumN : float;
  count : Z
}.
End Group.

(** A row of the production sheet. *)
Module Production.
Record row := mk {
  DATE : string;
  ALLOTMENT : string;
  PASTURE : string;
  KA : string;
  avg_nValue : JsVal;
  slope_g_per_bag : JsVal;
  Production_lbs_acre : JsVal
}.
Record result := mkResult {
  rows : list row;
  missingKAs : list string;
  slopes : gmap string float
}.
End Production.

(** A row of the "Comparative Yield" sheet as [sheet_to_json] returns it:
    the cells of the columns the upload reads, and [nValue], which it passes
    on. *)
Module Raw.
Record row := mk {
  Date : JsVal;
  Ancestry : JsVal;
  SiteID : JsVal;
  nValue : JsVal
}.
End Raw.

(** A workbook: the sheets in the order of [SheetNames], each with its name
    and the rows [sheet_to_json] returns for it. A file is a workbook, or
    one that [readExcelFile] rejects. *)
Definition Workbook (R : Type) : Type := list (string * list R).
Definition ExcelFile (R : Type) : Type := option (Workbook R).

(** The state of the component: the two collections and the status line. *)
Module App.
Record state := mk {
  cyRows : list CY.row;
  prodRows : list Cal.row;
  status : string
}.
End App.

(** What [downloadXlsxFromJson] does: an alert, or a file written with one
    sheet. *)
Inductive Download (R : Type) : Type :=
| Alert (message : string)
| WriteFile (filename sheetName : string) (rows : list R).
Arguments Alert {R} message.
Arguments WriteFile {R} filename sheetName rows.

(** ** Constants *)

Definition BAG_NUMBERS : list Z := [1; 3; 5].
Definition LBS_PER_ACRE_FACTOR : float := 55.7612%float.

(** ** Containers *)

(** [Array.prototype.sort]. For a comparator that is consistent on the
    elements the standard fixes the result: the one sorted arrangement that
    keeps ties in their order, which is what [Array_sort] computes. For a
    comparator that is not, the standard leaves the order to the
    implementation, and [Array_sort] stands for the sort only as far as its
    result is a rearrangement of the elements: what is stated below about
    the order of an output is stated for comparisons that make the
    comparator consistent on the rows at hand. *)
Fixpoint sort_insert {A} (cmp : A -> A -> Z) (x : A) (l : list A) : list A :=
  match l with
  | [] => [x]
  | y :: l' => if cmp x y <=? 0 then x :: l else y :: sort_insert cmp x l'
  end.

Definition Array_sort {A} (cmp : A -> A -> Z) (l : list A) : list A :=
  foldr (sort_insert cmp) [] l.

(** [set.add(k)] on a [Set] that is enumerated later. *)
Definition Set_add (k : string) (s : list string) : list string :=
  if decide (k ∈ s) then s else s ++ [k].

(** An object whose string keys are never array indices: [o[k]],
    [o[k] = v] on a new key, an update of the value under [k]. *)
Fixpoint obj_get {V} (k : string) (o : list (string * V)) : option V :=
  match o with
  | [] => None
  | (k', v) :: o' => if decide (k' = k) then Some v else obj_get k o'
  end.

Definition obj_add {V} (k : string) (v : V) (o : list (string * V)) :
  list (string * V) := o ++ [(k, v)].

Fixpoint obj_update {V} (f : V -> V) (k : string) (o : list (string * V)) :
  list (string * V) :=
  match o with
  | [] => []
  | (k', v) :: o' =>
      if decide (k' = k) then (k', f v) :: o' else (k', v) :: obj_update f k o'
  end.

Definition Object_values {V} (o : list (string * V)) : list V := o.*2.

(** The names of the members of [Object.prototype] (with those of Annex B),
    which every plain object inherits: for such a [k], [o[k]] on an object
    that has no property [k] of its own is a function, or, for [__proto__],
    the prototype object: never [undefined], and truthy. *)
Definition Object_prototype_keys : list string :=
  ["constructor"; "hasOwnProperty"; "isPrototypeOf"; "propertyIsEnumerable";
   "toLocaleString"; "toString"; "valueOf"; "__proto__";
   "__defineGetter__"; "__defineSetter__"; "__lookupGetter__";
   "__lookupSetter__"].

Definition inherited (k : string) : bool :=
  bool_decide (k ∈ Object_prototype_keys).

(** [a.join(sep)] on an array of strings. *)
Fixpoint join (sep : string) (a : list string) : string :=
  match a with
  | [] => ""
  | [x] => x
  | x :: a' => x +:+ sep +:+ join sep a'
  end.

(** [`${n}`] for a length. *)
Definition String_of_length {A} (l : list A) : string :=
  String_of_Z (Z.of_nat (List.length l)).

(** ** A sample host and sample rows

    The host functions at which the closed statements at the end are
    evaluated: a [Number] that reads no string as a number, a [String] that
    prints every number and date the same, the comparison of strings by
    code units, and the correctly rounded power of ten. The sample rows keep
    to number and text cells on which these choices do not bear. *)

Definition hostStringToNumber (s : string) : float := PrimFloat.nan.
Definition hostNumberToString (n : float) : string := "0".
Definition hostDateToString (d : JsDate) : string := "Invalid Date".
Definition hostLocaleCompare (a b : string) : Z :=
  match String.compare a b with
  | Lt => -1
  | Eq => 0
  | Gt => 1
  end.

(** A [Math.pow(10, digits)] that gives the Number closest to [10 ^ digits]:
    the power itself up to [digits = 22]. *)
Definition hostMath_pow10 (digits : nat) : float :=
  SF2Prim (binary_normalize prec emax (10 ^ Z.of_nat digits) 0 false).

Definition sample_yield : list CY.row :=
  [CY.mk "2025-09-30" "Turkey Creek" "Turkey Creek" "U" (JNumber 2);
   CY.mk "2025-09-30" "Bear Flat" "North" "C4" (JNumber 3);
   CY.mk "2025-09-30" "Turkey Creek" "Turkey Creek" "U" (JNumber 2)].

Definition sample_calibration : list Cal.row :=
  [Cal.mk (JString "U") (JNumber 1) (JNumber 10);
   Cal.mk (JString "U") (JNumber 3) (JNumber 30);
   Cal.mk (JString "U") (JNumber 5) (JNumber 50)].

Definition unit_U_row : CY.row :=
  CY.mk "2025-09-30" "Turkey Creek" "Turkey Creek" "U" (JNumber 2).

Definition overflowing_calibration : list Cal.row :=
  [Cal.mk (JString "U") (JNumber 1) (JNumber 1e308);
   Cal.mk (JString "U") (JNumber 1) (JNumber 1e308)].

Definition unit_C4_row : CY.row :=
  CY.mk "2025-09-30" "Bear Flat" "North" "C4" (JNumber 3).

Definition unit_C3_no_value : CY.row :=
  CY.mk "2025-09-30" "Turkey Creek" "North" "C3" JUndefined.

Definition calibration_K1 : list Cal.row :=
  [Cal.mk (JString "K1") (JNumber 1) (JNumber 10);
   Cal.mk (JString "K1") (JNumber 3) (JNumber 30);
   Cal.mk (JString "K1") (JNumber 5) (JNumber 50)].

Definition colliding_yield : list CY.row :=
  [CY.mk "2025-09-30" "A||B" "C" "K1" (JNumber 1);
   CY.mk "2025-09-30" "A" "B||C" "K1" (JNumber 3)].

(** A comparison that, like the collation of ICU, passes over the control
    character U+0001: it answers 0 on "A" and "A" followed by U+0001. *)
Definition skip_ignorable (s : string) : string :=
  string_of_list_ascii
    (List.filter (fun c => negb (N.eqb (N_of_ascii c) 1))
                 (list_ascii_of_string s)).

Definition collatingLocaleCompare (a b : string) : Z :=
  hostLocaleCompare (skip_ignorable a) (skip_ignorable b).

Definition A_ignorable : string := String "A" (String "001" EmptyString).

Definition tied_yield : list CY.row :=
  [CY.mk "2025-09-30" A_ignorable "Z" "K1" (JNumber 1);
   CY.mk "2025-09-30" "A" "B" "K1" (JNumber 3)].

Definition constructor_calibration : list Cal.row :=
  [Cal.mk (JString "constructor") (JNumber 1) (JNumber 10);
   Cal.mk (JString "constructor") (JNumber 3) (JNumber 30);
   Cal.mk (JString "constructor") (JNumber 5) (JNumber 50)].

Definition unit_constructor_row : CY.row :=
  CY.mk "2025-09-30" "Turkey Creek" "Turkey Creek" "constructor" (JNumber 2).

Definition sample_raw_workbook : Workbook Raw.row :=
  [("Comparative Yield",
    [Raw.mk (JString "2025-09-30")
            (JString "Turkey Creek Allotment > Turkey Creek Pasture > U")
            (JString "12-U") (JNumber 2)])].

Definition sample_raw_files : list (ExcelFile Raw.row) :=
  [Some sample_raw_workbook; Some [("Notes", [])]].

Definition sample_production_files : list (ExcelFile Cal.row) :=
  [Some [("Sheet1", sample_calibration)]].

Definition sample_date : JsDate := mkDate 1759190400000 2025 8 30.

(** ** The functions of [src/App.jsx] *)

Section App.

(** What the host evaluates: [Number(s)] for a string, [String(n)] for a
    number, [String(d)] for a date, [a.localeCompare(b)], and
    [Math.pow(10, digits)], a value the standard lets the host
    approximate. *)
Variable StringToNumber : string -> float.
Variable NumberToString : float -> string.
Variable DateToString : JsDate -> string.
Variable localeCompare : string -> string -> Z.
Variable Math_pow10 : nat -> float.

(** [Number(x)] *)
Definition Number (x : JsVal) : float :=
  match x with
  | JUndefined => PrimFloat.nan
  | JNull => 0%float
  | JBoolean b => if b then 1%float else 0%float
  | JNumber n => n
  | JString s => StringToNumber s
  | JDateObj d => timeValue d
  end.

(** [String(x)] *)
Definition ToString (x : JsVal) : string :=
  match x with
  | JUndefined => "undefined"
  | JNull => "null"
  | JBoolean b => if b then "true" else "false"
  | JNumber n => NumberToString n
  | JString s => s
  | JDateObj d => DateToString d
  end.

(** Truthiness: what [!x] negates. *)
Definition truthy (x : JsVal) : bool :=
  match x with
  | JUndefined | JNull => false
  | JBoolean b => b
  | JNumber n => negb (PrimFloat.eqb n 0 || isNaN n)
  | JString s => negb (String.eqb s "")
  | JDateObj _ => true
  end.

(** [a || b] *)
Definition js_or (a b : JsVal) : JsVal := if truthy a then a else b.

(** [isNaN(value)] on a [Date] tests its time value. *)
Definition normalizeDate (value : JsVal) : string :=
  match value with
  | JDateObj d =>
      if negb (isNaN (timeValue d)) then
        let yyyy := getFullYear d in
        let mm := padStart2 (String_of_Z (getMonth d + 1)) in
        let dd := padStart2 (String_of_Z (getDate d)) in
        String_of_Z yyyy ++ "-" ++ mm ++ "-" ++ dd
      else ""
  | JString s => s
  | _ => ""
  end.

(** [s] matches [\s+word$] from its first character, under the [i] flag. *)
Fixpoint matches_ws_word (word s : string) : bool :=
  match s with
  | String c s' =>
      isWhiteSpace c && (matches_ws_word word s' || eq_ignore_case s' word)
  | EmptyString => false
  end.

(** [s.replace(/\s+word$/i, "")]: the leftmost match, which runs to the end
    of [s], is dropped. *)
Fixpoint replace_ws_word (word s : string) : string :=
  match s with
  | String c s' =>
      if matches_ws_word word s then EmptyString
      else String c (replace_ws_word word s')
  | EmptyString => EmptyString
  end.

Record Ancestry := mkAncestry { allotment : string; pasture : string }.

Definition parseAncestry (ancestry : JsVal) : Ancestry :=
  if negb (truthy ancestry) then mkAncestry "" ""
  else
    let parts := split ">" (ToString ancestry) in
    let part (i : nat) :=
      match parts !! i with
      | Some p => if truthy (JString p) then trim p else ""
      | None => ""
      end in
    let allotmentRaw := part 0%nat in
    let pastureRaw := part 1%nat in
    let allotmentRaw := trim (replace_ws_word "Allotment" allotmentRaw) in
    let pastureRaw := trim (replace_ws_word "Pasture" pastureRaw) in
    mkAncestry allotmentRaw pastureRaw.

(** [s.match(/[A-Za-z].*$/)]: the leftmost letter from which no line
    terminator follows, with the rest of [s]. *)
Fixpoint match_letter_rest (s : string) : option string :=
  match s with
  | String c s' =>
      if isLetter c &&
         forallb (fun d => negb (isLineTerminator d)) (list_ascii_of_string s')
      then Some s
      else match_letter_rest s'
  | EmptyString => None
  end.

Definition extractKA (siteId : JsVal) : string :=
  if negb (truthy siteId) then ""
  else
    match match_letter_rest (ToString siteId) with
    | Some m => m
    | None => ""
    end.

Definition asNumber (x : JsVal) : float :=
  let n := Number x in
  if Number_isFinite n then n else PrimFloat.nan.

(** [round(value, digits)]; [digits] is 2 when the caller gives none. *)
Definition round (value : JsVal) (digits : nat) : JsVal :=
  let n := asNumber value in
  if negb (Number_isFinite n) then JString ""
  else
    let factor := Math_pow10 digits in
    JNumber (Math_round (n * factor) / factor).

(** The comparator both sorts pass to [sort], on the four fields it reads. *)
Definition compareRows (a b : string * string * string * string) : Z :=
  let '(aALLOTMENT, aPASTURE, aDATE, aKA) := a in
  let '(bALLOTMENT, bPASTURE, bDATE, bKA) := b in
  if negb (String.eqb aALLOTMENT bALLOTMENT)
  then localeCompare aALLOTMENT bALLOTMENT
  else if negb (String.eqb aPASTURE bPASTURE)
  then localeCompare aPASTURE bPASTURE
  else if negb (String.eqb aDATE bDATE)
  then localeCompare aDATE bDATE
  else localeCompare aKA bKA.

Definition rowKey (DATE ALLOTMENT PASTURE KA : string) : string :=
  DATE ++ "||" ++ ALLOTMENT ++ "||" ++ PASTURE ++ "||" ++ KA.

Definition templateFields (r : Template.row) : string * string * string * string :=
  (Template.ALLOTMENT r, Template.PASTURE r, Template.DATE r, Template.KA r).

Definition template_step (st : list Template.row * gset string) (row : CY.row) :
  list Template.row * gset string :=
  let '(templateRows, seen) := st in
  let DATE := CY.DATE row in
  let ALLOTMENT := CY.ALLOTMENT row in
  let PASTURE := CY.PASTURE row in
  let KA := CY.KA row in
  if negb (truthy (JString DATE)) || negb (truthy (JString KA)) then st
  else
    let key := rowKey DATE ALLOTMENT PASTURE KA in
    if decide (key ∈ seen) then st
    else
      (templateRows ++
         map (fun bag => Template.mk DATE ALLOTMENT PASTURE KA bag "" "" "" "")
             BAG_NUMBERS,
       seen ∪ {[key]}).

Definition makeProductionTemplateRows (cyRowsProcessed : list CY.row) :
  list Template.row :=
  let templateRows := (fold_left template_step cyRowsProcessed ([], ∅)).1 in
  Array_sort (fun a b => compareRows (templateFields a) (templateFields b))
             templateRows.

(** The body of the loop over the calibration rows. [!perKA[KA]] is false
    for an entry of [perKA] and also for a name of [Object_prototype_keys],
    where the read finds the inherited member: no entry is made then, and
    the three [+=] write to that member, which is no part of [perKA]. *)
Definition slopes_step (perKA : gmap string Stats.t) (row : Cal.row) :
  gmap string Stats.t :=
  let KA := js_or (Cal.KA row) (Cal.KA row) in
  let x := asNumber (Cal.BAG row) in
  let y := asNumber (Cal.NET_WT row) in
  if negb (truthy KA) || negb (Number_isFinite x) || negb (Number_isFinite y)
  then perKA
  else
    let k := ToString KA in
    let perKA :=
      match perKA !! k with
      | None => if inherited k then perKA else <[k := Stats.mk 0 0 0]> perKA
      | Some _ => perKA
      end in
    alter (fun st => Stats.mk (Stats.sumXY st + x * y)
                              (Stats.sumX2 st + x * x)
                              (Stats.count st + 1)) k perKA.

Definition slope_of (stats : Stats.t) : option float :=
  if (0 <? Stats.sumX2 stats)%float
  then Some (Stats.sumXY stats / Stats.sumX2 stats)%float
  else None.

Definition computeSlopesByKA (prodRows : list Cal.row) : gmap string float :=
  let perKA := fold_left slopes_step prodRows ∅ in
  omap slope_of perKA.

Definition groups_step (groups : list (string * Group.t)) (row : CY.row) :
  list (string * Group.t) :=
  let DATE := CY.DATE row in
  let ALLOTMENT := CY.ALLOTMENT row in
  let PASTURE := CY.PASTURE row in
  let KA := CY.KA row in
  if negb (truthy (JString KA)) || negb (truthy (JString DATE)) then groups
  else
    let nValue := asNumber (js_or (CY.nValue row) (CY.nValue row)) in
    if negb (Number_isFinite nValue) then groups
    else
      let key := rowKey DATE ALLOTMENT PASTURE KA in
      let groups :=
        match obj_get key groups with
        | None => obj_add key (Group.mk DATE ALLOTMENT PASTURE KA 0 0) groups
        | Some _ => groups
        end in
      obj_update (fun g => Group.mk (Group.DATE g) (Group.ALLOTMENT g)
                                    (Group.PASTURE g) (Group.KA g)
                                    (Group.sumN g + nValue)
                                    (Group.count g + 1)) key groups.

Definition productionFields (r : Production.row) :
  string * string * string * string :=
  (Production.ALLOTMENT r, Production.PASTURE r, Production.DATE r,
   Production.KA r).

(** The body of the loop over [Object.values(groups)]; [slopes[g.KA]] is
    [undefined], or a member inherited from [Object.prototype], so not
    finite, when the table has no entry. *)
Definition production_step (slopes : gmap string float)
  (st : list Production.row * list string) (g : Group.t) :
  list Production.row * list string :=
  let '(outRows, missingKAs) := st in
  if Group.count g =? 0 then st
  else
    let avgN := (Group.sumN g / Z2float (Group.count g))%float in
    match slopes !! Group.KA g with
    | Some slope =>
        if negb (Number_isFinite slope) then (outRows, Set_add (Group.KA g) missingKAs)
        else
          let productionLbsAcre := (slope * avgN * LBS_PER_ACRE_FACTOR)%float in
          (outRows ++
             [Production.mk (Group.DATE g) (Group.ALLOTMENT g)
                (Group.PASTURE g) (Group.KA g)
                (round (JNumber avgN) 3) (round (JNumber slope) 4)
                (round (JNumber productionLbsAcre) 2)],
           missingKAs)
    | None => (outRows, Set_add (Group.KA g) missingKAs)
    end.

Definition computeProductionFromCY (cyRowsProcessed : list CY.row)
  (prodRows : list Cal.row) : Production.result :=
  let slopes := computeSlopesByKA prodRows in
  let groups := fold_left groups_step cyRowsProcessed [] in
  let '(outRows, missingKAs) :=
    fold_left (production_step slopes) (Object_values groups) ([], []) in
  Production.mkResult
    (Array_sort (fun a b => compareRows (productionFields a) (productionFields b))
                outRows)
    missingKAs slopes.

(** Export rows to a file with a single sheet. *)
Definition downloadXlsxFromJson {R} (rows : list R) (filename sheetName : string) :
  Download R :=
  match rows with
  | [] => Alert "Nothing to export."
  | _ => WriteFile filename sheetName rows
  end.

(** The handlers of the component, each from the state it runs in to the
    state it leaves when it has finished; one runs at a time. The text the
    status shows while files are read is overwritten before a handler ends
    and is left out, and so is the reset of the file input. *)
Definition initialState : App.state := App.mk [] [] "".

(** The object [handleUploadRaw] pushes for a row of the sheet. *)
Definition processRawRow (row : Raw.row) : CY.row :=
  let dateRaw := js_or (Raw.Date row) (Raw.Date row) in
  let DATE := normalizeDate dateRaw in
  let ancestry := parseAncestry (js_or (Raw.Ancestry row) (Raw.Ancestry row)) in
  let KA := extractKA (js_or (Raw.SiteID row) (Raw.SiteID row)) in
  CY.mk DATE (allotment ancestry) (pasture ancestry) KA (Raw.nValue row).

(** The loop over the files inside the [try]: [None] when a file cannot be
    read, which takes the [catch]. *)
Fixpoint uploadRaw_loop (files : list (ExcelFile Raw.row)) (allCY : list CY.row) :
  option (list CY.row) :=
  match files with
  | [] => Some allCY
  | None :: _ => None
  | Some wb :: files' =>
      match obj_get "Comparative Yield" wb with
      | None => uploadRaw_loop files' allCY
      | Some cyData => uploadRaw_loop files' (allCY ++ map processRawRow cyData)
      end
  end.

Definition handleUploadRaw (files : list (ExcelFile Raw.row)) (st : App.state) :
  App.state :=
  match files with
  | [] => st
  | _ =>
      match uploadRaw_loop files (App.cyRows st) with
      | Some allCY =>
          App.mk allCY (App.prodRows st)
            ("Loaded " +:+ String_of_length allCY +:+ " Comparative Yield rows.")
      | None =>
          App.mk (App.cyRows st) (App.prodRows st)
            "Error reading RAW files. Check console for details."
      end
  end.

(** The object [handleUploadProduction] pushes for a row of the sheet. *)
Definition processProductionRow (row : Cal.row) : Cal.row :=
  Cal.mk (js_or (Cal.KA row) (Cal.KA row)) (Cal.BAG row) (Cal.NET_WT row).

(** The rows of the first sheet; none for a workbook without a sheet. *)
Definition firstSheet {R} (wb : Workbook R) : list R :=
  match wb with
  | (_, rows) :: _ => rows
  | [] => []
  end.

Fixpoint uploadProduction_loop (files : list (ExcelFile Cal.row))
  (allProd : list Cal.row) : option (list Cal.row) :=
  match files with
  | [] => Some allProd
  | None :: _ => None
  | Some wb :: files' =>
      uploadProduction_loop files'
        (allProd ++ map processProductionRow (firstSheet wb))
  end.

Definition handleUploadProduction (files : list (ExcelFile Cal.row))
  (st : App.state) : App.state :=
  match files with
  | [] => st
  | _ =>
      match uploadProduction_loop files (App.prodRows st) with
      | Some allProd =>
          App.mk (App.cyRows st) allProd
            ("Loaded " +:+ String_of_length allProd +:+ " production rows.")
      | None =>
          App.mk (App.cyRows st) (App.prodRows st)
            "Error reading production files. Check console for details."
      end
  end.

(** The state an export leaves, and the download it asked for, if any. *)
Definition handleExportTemplate (st : App.state) :
  App.state * option (Download Template.row) :=
  match App.cyRows st with
  | [] =>
      (App.mk (App.cyRows st) (App.prodRows st)
         "No Comparative Yield data loaded.", None)
  | _ =>
      let templateRows := makeProductionTemplateRows (App.cyRows st) in
      (App.mk (App.cyRows st) (App.prodRows st)
         ("Exported template with " +:+ String_of_length templateRows
          +:+ " rows."),
       Some (downloadXlsxFromJson templateRows "CY_ProductionTemplate.xlsx"
               "ProductionTemplate"))
  end.

Definition handleExportProduction (st : App.state) :
  App.state * option (Download Production.row) :=
  let setStatus (text : string) :=
    App.mk (App.cyRows st) (App.prodRows st) text in
  match App.cyRows st, App.prodRows st with
  | [], _ => (setStatus "No Comparative Yield data loaded.", None)
  | _, [] => (setStatus "No production (Bag / NET WT.) data loaded.", None)
  | _, _ =>
      let result := computeProductionFromCY (App.cyRows st) (App.prodRows st) in
      let rows := Production.rows result in
      let missingKAs := Production.missingKAs result in
      match rows with
      | [] =>
          (setStatus
             "No Production rows could be computed. Check that KAs match between CY and production files.",
           None)
      | _ =>
          let download :=
            downloadXlsxFromJson rows "CY_Production_lbs_per_acre.xlsx"
              "Production_lbs_acre" in
          match missingKAs with
          | [] =>
              (setStatus ("Exported " +:+ String_of_length rows
                          +:+ " rows (Production lbs/acre)."),
               Some download)
          | _ =>
              (setStatus ("Exported " +:+ String_of_length rows
                          +:+ " rows. Note: no calibration found for KAs: "
                          +:+ join ", " missingKAs),
               Some download)
          end
      end
  end.

(** The distinct unit codes of the yield rows, whose number the page
    shows. *)
Definition cyKAs (cyRows : list CY.row) : gset string :=
  list_to_set (filter (fun KA => truthy (JString KA) = true) (CY.KA <$> cyRows)).

(** ** The wording of the specification

    Definitions that follow the specification's sentences, to be compared
    with the functions above. *)

(** [toRoundedNumber(value, digits)] as the specification words it: the
    empty string when the coerced value is not finite, otherwise the value
    scaled by a power of ten, rounded half away from zero and scaled back. *)
Definition toRoundedNumber_spec (value : JsVal) (digits : nat) : JsVal :=
  let n := Number value in
  if Number_isFinite n
  then JNumber (round_half_away (n * Math_pow10 digits) / Math_pow10 digits)
  else JString "".

(** [extractUnitCode(identifier)] as the specification words it: the
    substring from the first alphabetic character through the end. *)
Fixpoint from_first_letter (s : string) : string :=
  match s with
  | String c s' => if isLetter c then s else from_first_letter s'
  | EmptyString => EmptyString
  end.

Fixpoint all_ws (s : string) : bool :=
  match s with
  | String c s' => isWhiteSpace c && all_ws s'
  | EmptyString => true
  end.

Definition starts_ws (s : string) : bool :=
  match s with
  | String c _ => isWhiteSpace c
  | EmptyString => false
  end.

Fixpoint ends_ws (s : string) : bool :=
  match s with
  | String c EmptyString => isWhiteSpace c
  | String _ s' => ends_ws s'
  | EmptyString => false
  end.

Fixpoint no_gt (s : string) : bool :=
  match s with
  | String c s' => negb (Ascii.eqb c ">") && no_gt s'
  | EmptyString => true
  end.

Definition no_line_terminator (s : string) : bool :=
  forallb (fun d => negb (isLineTerminator d)) (list_ascii_of_string s).


(** [t] is [s] without the white space at its two ends. *)
Definition Trimmed (s t : string) : Prop :=
  (exists l r, s = l +:+ t +:+ r /\ all_ws l = true /\ all_ws r = true)
  /\ starts_ws t = false /\ ends_ws t = false.




(** "Ascending by allotment, then pasture, then date, then ka": the
    lexicographic order of the four fields, each compared as a string by
    the host's collation. *)
Definition str_lt (a b : string) : Prop := localeCompare a b < 0.

Definition fields_le (a b : string * string * string * string) : Prop :=
  let '(aALLOTMENT, aPASTURE, aDATE, aKA) := a in
  let '(bALLOTMENT, bPASTURE, bDATE, bKA) := b in
  str_lt aALLOTMENT bALLOTMENT \/
  (aALLOTMENT = bALLOTMENT /\
   (str_lt aPASTURE bPASTURE \/
    (aPASTURE = bPASTURE /\
     (str_lt aDATE bDATE \/
      (aDATE = bDATE /\ (str_lt aKA bKA \/ aKA = bKA)))))).

(** The strings the two sorts compare: the field values of the yield
    rows. *)
Definition field_values (cy : list CY.row) : list string :=
  flat_map (fun r => [CY.ALLOTMENT r; CY.PASTURE r; CY.DATE r; CY.KA r]) cy.

Definition fields_in (l : list string)
  (f : string * string * string * string) : Prop :=
  let '(ALLOTMENT, PASTURE, DATE, KA) := f in
  ALLOTMENT ∈ l /\ PASTURE ∈ l /\ DATE ∈ l /\ KA ∈ l.

(** The comparison of the host tells the strings of [l] apart and puts
    them in order: among them it answers 0 on equal strings only, its sign
    flips with its arguments, and "before" is transitive. A collation need
    not tell all strings apart (it may pass over a control character, and
    must answer 0 on canonically equivalent strings). *)
Definition Collates (l : list string) : Prop :=
  (forall a b, a ∈ l -> b ∈ l -> (localeCompare a b = 0 <-> a = b))
  /\ (forall a b, a ∈ l -> b ∈ l ->
        (localeCompare a b < 0 <-> 0 < localeCompare b a))
  /\ (forall a b c, a ∈ l -> b ∈ l -> c ∈ l ->
        localeCompare a b < 0 -> localeCompare b c < 0 ->
        localeCompare a c < 0).

(** The Calibration Engine as the specification words it: for a unit code
    [U], the rows of [U] are those whose [KA] cell holds something (it is
    truthy) and reads [U], with a finite bag number and a finite net
    weight; the slope is [sumXY / sumX2] over them, the sums taken in the
    order of the rows, defined only when [sumX2 > 0]. *)
Definition cal_eligible (r : Cal.row) : bool :=
  truthy (Cal.KA r) && Number_isFinite (asNumber (Cal.BAG r))
  && Number_isFinite (asNumber (Cal.NET_WT r)).

Definition cal_rows_of (U : string) (prodRows : list Cal.row) : list Cal.row :=
  filter (fun r => cal_eligible r = true /\ ToString (Cal.KA r) = U) prodRows.

Definition sumXY_of (l : list Cal.row) : float :=
  fold_left (fun acc r =>
               (acc + asNumber (Cal.BAG r) * asNumber (Cal.NET_WT r))%float)
            l 0%float.

Definition sumX2_of (l : list Cal.row) : float :=
  fold_left (fun acc r =>
               (acc + asNumber (Cal.BAG r) * asNumber (Cal.BAG r))%float)
            l 0%float.

Definition fitted_slope (U : string) (prodRows : list Cal.row) : option float :=
  let rows := cal_rows_of U prodRows in
  if (0 <? sumX2_of rows)%float
  then Some (sumXY_of rows / sumX2_of rows)%float
  else None.

(** The Production Aggregator as the specification words it. A yield row
    counts when its [ka] and [date] are not empty and its yield value is
    finite; the group of a row is made of the rows that count and have its
    (date, allotment, pasture, ka); the average yield value of a group is
    the sum of its yield values by the number of its rows. *)
Definition eligible (r : CY.row) : bool :=
  truthy (JString (CY.KA r)) && truthy (JString (CY.DATE r))
  && Number_isFinite (asNumber (CY.nValue r)).

Definition same_group (r r' : CY.row) : Prop :=
  CY.DATE r = CY.DATE r' /\ CY.ALLOTMENT r = CY.ALLOTMENT r'
  /\ CY.PASTURE r = CY.PASTURE r' /\ CY.KA r = CY.KA r'.

Global Instance same_group_dec (r r' : CY.row) : Decision (same_group r r').
Proof. unfold same_group. apply _. Defined.

Definition group_of (r : CY.row) (cy : list CY.row) : list CY.row :=
  filter (fun r' => eligible r' = true /\ same_group r r') cy.

Definition sum_nValue (l : list CY.row) : float :=
  fold_left (fun acc r => (acc + asNumber (CY.nValue r))%float) l 0%float.

Definition avgYieldValue (l : list CY.row) : float :=
  (sum_nValue l / Z2float (Z.of_nat (List.length l)))%float.

(** The output row of the group of [r] for the fitted [slope]. *)
Definition production_row_of (r : CY.row) (cy : list CY.row) (slope : float) :
  Production.row :=
  let avg := avgYieldValue (group_of r cy) in
  Production.mk (CY.DATE r) (CY.ALLOTMENT r) (CY.PASTURE r) (CY.KA r)
    (round (JNumber avg) 3) (round (JNumber slope) 4)
    (round (JNumber (slope * avg * 55.7612)%float) 2).

(** The key the source joins from the four fields of a row, and the inputs
    on which it tells the groups apart: two rows with one key have the same
    four fields. *)
Definition key_of (r : CY.row) : string :=
  rowKey (CY.DATE r) (CY.ALLOTMENT r) (CY.PASTURE r) (CY.KA r).

Definition KeyInjective (cy : list CY.row) : Prop :=
  forall r1 r2, r1 ∈ cy -> r2 ∈ cy -> key_of r1 = key_of r2 -> same_group r1 r2.

(** ** Auxiliary definitions

    What the statements below name: the intermediate values of the loops. *)

Definition stats_of (l : list Cal.row) : option Stats.t :=
  match l with
  | [] => None
  | _ => Some (Stats.mk (sumXY_of l) (sumX2_of l) (Z.of_nat (List.length l)))
  end.

(** The yield row has a date and a unit code. *)
Definition usable (r : CY.row) : bool :=
  truthy (JString (CY.DATE r)) && truthy (JString (CY.KA r)).

(** The three lines of the template for the fields of [r]. *)
Definition template_rows_of (r : CY.row) : list Template.row :=
  map (fun bag => Template.mk (CY.DATE r) (CY.ALLOTMENT r) (CY.PASTURE r)
                              (CY.KA r) bag "" "" "" "")
      BAG_NUMBERS.

Definition template_key (t : Template.row) : string :=
  rowKey (Template.DATE t) (Template.ALLOTMENT t) (Template.PASTURE t)
         (Template.KA t).

Definition bump (n : float) (g : Group.t) : Group.t :=
  Group.mk (Group.DATE g) (Group.ALLOTMENT g) (Group.PASTURE g) (Group.KA g)
           (Group.sumN g + n) (Group.count g + 1).

Definition fresh_group (r : CY.row) : Group.t :=
  Group.mk (CY.DATE r) (CY.ALLOTMENT r) (CY.PASTURE r) (CY.KA r) 0 0.

(** The rows a key gathers. *)
Definition members (k : string) (cy : list CY.row) : list CY.row :=
  filter (fun r => eligible r = true /\ key_of r = k) cy.

Definition group_record (m : list CY.row) : option Group.t :=
  match m with
  | [] => None
  | r0 :: _ =>
      Some (Group.mk (CY.DATE r0) (CY.ALLOTMENT r0) (CY.PASTURE r0) (CY.KA r0)
                     (sum_nValue m) (Z.of_nat (List.length m)))
  end.

(** The row the loop over the groups pushes for [g] and its slope. *)
Definition production_row (g : Group.t) (slope : float) : Production.row :=
  let avgN := (Group.sumN g / Z2float (Group.count g))%float in
  Production.mk (Group.DATE g) (Group.ALLOTMENT g) (Group.PASTURE g) (Group.KA g)
    (round (JNumber avgN) 3) (round (JNumber slope) 4)
    (round (JNumber (slope * avgN * LBS_PER_ACRE_FACTOR)%float) 2).

(** [Number.isFinite(slopes[k])] *)
Definition finite_slope (slopes : gmap string float) (k : string) : bool :=
  match slopes !! k with
  | Some s => Number_isFinite s
  | None => false
  end.

(** The last line of [s]: what follows its last line terminator. *)
Fixpoint last_line (s : string) : string :=
  match s with
  | String c s' => if no_line_terminator s then s else last_line s'
  | EmptyString => EmptyString
  end.

Definition starts_with_letter (s : string) : bool :=
  match s with
  | String c _ => isLetter c
  | EmptyString => false
  end.

(** [[0-9]], a string of [n] digits, and the shape [YYYY-MM-DD]. *)
Definition isDigit (c : ascii) : bool :=
  let n := code c in ((48 <=? n) && (n <=? 57))%N.

Definition digits_n (n : nat) (s : string) : bool :=
  (String.length s =? n)%nat && forallb isDigit (list_ascii_of_string s).

Definition is_iso_date (s : string) : bool :=
  match s with
  | String y1 (String y2 (String y3 (String y4 (String h1
      (String m1 (String m2 (String h2 (String d1 (String d2 EmptyString)))))))))
    => isDigit y1 && isDigit y2 && isDigit y3 && isDigit y4
       && Ascii.eqb h1 "-" && isDigit m1 && isDigit m2
       && Ascii.eqb h2 "-" && isDigit d1 && isDigit d2
  | _ => false
  end.

Definition groupFields (g : Group.t) : string * string * string * string :=
  (Group.ALLOTMENT g, Group.PASTURE g, Group.DATE g, Group.KA g).

(** The row the loop over the groups pushes for [g], if it pushes one. *)
Definition emitted (slopes : gmap string float) (g : Group.t) :
  option Production.row :=
  if finite_slope slopes (Group.KA g)
  then Some (production_row g (default 0%float (slopes !! Group.KA g)))
  else None.

(** The rows a file that can be read adds to each collection. *)
Definition rawRowsOf (file : ExcelFile Raw.row) : list CY.row :=
  match file with
  | Some wb =>
      match obj_get "Comparative Yield" wb with
      | Some cyData => map processRawRow cyData
      | None => []
      end
  | None => []
  end.

Definition prodRowsOf (file : ExcelFile Cal.row) : list Cal.row :=
  match file with
  | Some wb => map processProductionRow (firstSheet wb)
  | None => []
  end.

(** What the user does, and the state after a sequence of these from the
    initial state. *)
Inductive Event : Type :=
| UploadRaw (files : list (ExcelFile Raw.row))
| UploadProduction (files : list (ExcelFile Cal.row))
| ExportTemplate
| ExportProduction.

Definition handle (st : App.state) (e : Event) : App.state :=
  match e with
  | UploadRaw files => handleUploadRaw files st
  | UploadProduction files => handleUploadProduction files st
  | ExportTemplate => (handleExportTemplate st).1
  | ExportProduction => (handleExportProduction st).1
  end.

Definition run (events : list Event) : App.state :=
  fold_left handle events initialState.

(** A name with no white space at its ends and no [>]; a unit code that is
    empty or begins with a letter and holds no line terminator. *)
Definition clean_name (s : string) : bool :=
  negb (starts_ws s) && negb (ends_ws s) && no_gt s.

Definition clean_KA (s : string) : bool :=
  (String.eqb s "" || starts_with_letter s) && no_line_terminator s.

(** * Properties *)

(** ** Rounding *)

Lemma round_half_up_nearest (s : bool) (m : positive) (e : Z) :
  e < 0 ->
  let num := if s then Z.neg m else Z.pos m in
  let z := round_half_up s m e in
  (2 * z - 1) * 2 ^ (- e) <= 2 * num < (2 * z + 1) * 2 ^ (- e).
Proof.
  intros He num z. subst z. unfold round_half_up. fold num.
  destruct (Z.leb_spec 0 e) as [?|_]; [lia|].
  replace (1 - e) with (Z.succ (- e)) by lia.
  rewrite Z.pow_succ_r by lia.
  set (D := 2 ^ (- e)).
  assert (HD : 0 < D) by (apply Z.pow_pos_nonneg; lia).
  pose proof (Z.div_mod (2 * num + D) (2 * D) ltac:(lia)) as Hdm.
  pose proof (Z.mod_pos_bound (2 * num + D) (2 * D) ltac:(lia)) as Hr.
  set (q := (2 * num + D) / (2 * D)) in *.
  set (r := (2 * num + D) mod (2 * D)) in *.
  nia.
Qed.

Lemma asNumber_finite (x : JsVal) :
  Number_isFinite (asNumber x) = Number_isFinite (Number x).
Proof.
  unfold asNumber. destruct (Number_isFinite (Number x)) eqn:E; [exact E|reflexivity].
Qed.

Lemma asNumber_eq (x : JsVal) :
  Number_isFinite (Number x) = true -> asNumber x = Number x.
Proof. unfold asNumber. now intros ->. Qed.

Lemma round_unfold (value : JsVal) (digits : nat) :
  round value digits =
  if Number_isFinite (Number value)
  then JNumber (Math_round (Number value * Math_pow10 digits) / Math_pow10 digits)
  else JString "".
Proof.
  unfold round. rewrite asNumber_finite.
  destruct (Number_isFinite (Number value)) eqn:E; simpl; [|reflexivity].
  now rewrite asNumber_eq.
Qed.

(** *** Negative values that are no tie *)

Lemma digits2_pos_lower (m : positive) :
  2 ^ (Z.pos (digits2_pos m) - 1) <= Z.pos m.
Proof.
  induction m as [m IH|m IH|]; cbn [digits2_pos]; [| |cbn; lia].
  all: rewrite Pos2Z.inj_succ;
    replace (Z.succ (Z.pos (digits2_pos m)) - 1)
      with (Z.succ (Z.pos (digits2_pos m) - 1)) by lia;
    rewrite Z.pow_succ_r by lia; lia.
Qed.

(** The mantissa of a Number above the subnormal range has 53 bits. *)
Lemma valid_mantissa (m : positive) (e : Z) :
  bounded prec emax m e = true -> -1074 < e -> 2 ^ 52 <= Z.pos m.
Proof.
  unfold bounded, canonical_mantissa, fexp, emin, prec, emax.
  intros [Hc _]%andb_prop He. apply Z.eqb_eq in Hc.
  assert (Hd : Z.pos (digits2_pos m) = 53) by lia.
  pose proof (digits2_pos_lower m) as Hm. rewrite Hd in Hm. exact Hm.
Qed.

Lemma Z2float_opp (q : Z) : 0 < q -> Z2float (- q) = (- Z2float q)%float.
Proof.
  intros Hq. unfold Z2float.
  destruct (Z.ltb_spec (- q) 0) as [_|?]; [|lia].
  destruct (Z.ltb_spec q 0) as [?|_]; [lia|].
  now rewrite Z.opp_involutive.
Qed.

Lemma float_opp_involutive (x : float) : (- - x)%float = x.
Proof.
  apply FloatAxioms.Prim2SF_inj. rewrite !FloatAxioms.opp_spec.
  destruct (Prim2SF x); cbn [SFopp]; now rewrite ?negb_involutive.
Qed.

Lemma round_half_up_opp (m : positive) (e : Z) :
  e < 0 -> Z.pos m mod 2 ^ (- e) <> 2 ^ (- e - 1) ->
  round_half_up true m e = - round_half_up false m e.
Proof.
  intros He Hmod. unfold round_half_up.
  destruct (Z.leb_spec 0 e) as [?|_]; [lia|].
  set (h := 2 ^ (- e - 1)) in *.
  assert (Hh : 0 < h) by (apply Z.pow_pos_nonneg; lia).
  assert (HD : 2 ^ (- e) = 2 * h).
  { unfold h. replace (- e) with (Z.succ (- e - 1)) at 1 by lia.
    apply Z.pow_succ_r. lia. }
  assert (HD2 : 2 ^ (1 - e) = 2 * (2 * h)).
  { replace (1 - e) with (Z.succ (- e)) by lia.
    rewrite Z.pow_succ_r by lia. now rewrite HD. }
  rewrite HD in Hmod |- *. rewrite HD2.
  pose proof (Z.div_mod (2 * Z.pos m + 2 * h) (2 * (2 * h)) ltac:(lia)) as Hdm.
  pose proof (Z.mod_pos_bound (2 * Z.pos m + 2 * h) (2 * (2 * h)) ltac:(lia))
    as Hr.
  set (q := (2 * Z.pos m + 2 * h) / (2 * (2 * h))) in *.
  set (r := (2 * Z.pos m + 2 * h) mod (2 * (2 * h))) in *.
  assert (Hr0 : r <> 0).
  { intros Hr0. apply Hmod. symmetry.
    apply (Z.mod_unique (Z.pos m) (2 * h) (q - 1) h); lia. }
  symmetry. apply (Z.div_unique _ _ (- q) (2 * (2 * h) - r)); lia.
Qed.

Lemma round_half_up_pos (m : positive) (e : Z) :
  e < 0 -> 2 ^ (- e) <= 2 * Z.pos m -> 0 < round_half_up false m e.
Proof.
  intros He Hm. unfold round_half_up.
  destruct (Z.leb_spec 0 e) as [?|_]; [lia|].
  replace (1 - e) with (Z.succ (- e)) by lia. rewrite Z.pow_succ_r by lia.
  assert (0 < 2 ^ (- e)) by (apply Z.pow_pos_nonneg; lia).
  apply Z.div_str_pos. lia.
Qed.

(** How a Number [- m * 2^e], or its opposite, compares with another of
    its sign. *)
Lemma compare_same_sign (m mh : positive) (e eh : Z) :
  let c := match e ?= eh with
           | Eq => Pos.compare_cont Eq m mh
           | c => c
           end in
  SFltb (S754_finite false m e) (S754_finite false mh eh)
  = match c with Lt => true | _ => false end
  /\ SFleb (S754_finite true mh eh) (S754_finite true m e)
     = match c with Gt => false | _ => true end.
Proof.
  unfold SFltb, SFleb, SFcompare.
  rewrite (Z.compare_antisym e eh).
  pose proof (Pos.compare_cont_antisym m mh Eq) as Ha. cbn [CompOpp] in Ha.
  rewrite <- Ha.
  destruct (e ?= eh); cbn [CompOpp]; [|now split..].
  destruct (Pos.compare_cont Eq m mh); now split.
Qed.

(** Off the negative ties, [Math_round] and rounding half away from zero
    are the same function. *)
Lemma round_half_away_eq (x : float) :
  negative_tie x = false -> round_half_away x = Math_round x.
Proof.
  intros Htie. unfold round_half_away.
  destruct (x <? 0)%float eqn:Hneg; [|reflexivity].
  pose proof (FloatAxioms.opp_spec x) as Hopp.
  pose proof (FloatAxioms.Prim2SF_valid x) as Hval.
  rewrite FloatAxioms.ltb_spec in Hneg.
  change (Prim2SF 0) with (S754_zero false) in Hneg.
  unfold negative_tie in Htie. unfold Math_round.
  rewrite !FloatAxioms.ltb_spec, !FloatAxioms.leb_spec, Hopp.
  assert (Hhalf : exists mh,
             Prim2SF 0.5 = S754_finite false mh (-53)
             /\ Prim2SF (-0.5) = S754_finite true mh (-53)
             /\ Z.pos mh = 2 ^ 52)
    by (eexists; repeat split; reflexivity).
  destruct Hhalf as (mh & -> & -> & Hmh).
  change (Prim2SF 0) with (S754_zero false).
  destruct (Prim2SF x) as [[|]|[|]| |[|] m e] eqn:Ex; try discriminate Hneg.
  - apply float_opp_involutive.
  - cbn [SFopp negb]. destruct (Z.leb_spec 0 e) as [He|He];
      [apply float_opp_involutive|].
    destruct (Z.ltb_spec e 0) as [_|?]; [|lia]. cbn [andb] in Htie.
    apply Z.eqb_neq in Htie.
    destruct (compare_same_sign m mh e (-53)) as [Hlt Hle].
    cbv zeta in Hlt, Hle. rewrite Hlt, Hle.
    cbn [SFltb SFleb SFcompare andb].
    destruct (e ?= -53) eqn:Ce.
    + apply Z.compare_eq in Ce. subst e.
      destruct (Pos.compare_cont Eq m mh) eqn:Cm.
      * apply Pos.compare_eq in Cm. subst m. destruct Htie.
        rewrite Hmh. reflexivity.
      * reflexivity.
      * apply Pos.compare_gt_iff in Cm.
        rewrite round_half_up_opp by (lia || exact Htie).
        symmetry. apply Z2float_opp, round_half_up_pos; [lia|].
        change (2 ^ (- -53)) with (2 * 2 ^ 52). lia.
    + reflexivity.
    + apply Z.compare_gt_iff in Ce.
      rewrite round_half_up_opp by (lia || exact Htie).
      symmetry. apply Z2float_opp, round_half_up_pos; [lia|].
      cbn [valid_binary] in Hval.
      pose proof (valid_mantissa m e Hval ltac:(lia)) as Hm.
      assert (2 ^ (- e) <= 2 ^ 52) by (apply Z.pow_le_mono_r; lia). lia.
Qed.

Lemma negative_tie_negative (x : float) :
  negative_tie x = true -> (x <? 0)%float = true.
Proof.
  unfold negative_tie. rewrite FloatAxioms.ltb_spec.
  change (Prim2SF 0) with (S754_zero false).
  now destruct (Prim2SF x) as [[|]|[|]| |[|] m e].
Qed.

(** C4 (amended). [round] returns the empty string when the coerced value
    is not finite and otherwise [Math.round(n * p) / p] for the host's
    [p = Math.pow(10, digits)]; [Math.round] gives the integer [z] with
    [z - 1/2 <= x < z + 1/2], so a tie goes toward +infinity, not away from
    zero; on every scaled value that is not a negative tie, so on all that
    are not negative, this is the specification's half-away-from-zero
    rule. *)
Theorem round_half_up_spec (value : JsVal) (digits : nat) :
  let n := Number value in
  let factor := Math_pow10 digits in
  let scaled := (n * factor)%float in
  round value digits =
    (if Number_isFinite n then JNumber (Math_round scaled / factor)
     else JString "")
  /\ (forall s m e,
        Prim2SF scaled = S754_finite s m e -> e < 0 ->
        ((0 <? scaled) && (scaled <? 0.5))%float = false ->
        ((scaled <? 0) && (-0.5 <=? scaled))%float = false ->
        let num := if s then Z.neg m else Z.pos m in
        exists z, Math_round scaled = Z2float z
          /\ (2 * z - 1) * 2 ^ (- e) <= 2 * num < (2 * z + 1) * 2 ^ (- e))
  /\ ((scaled <? 0)%float = false \/ negative_tie scaled = false ->
      round value digits = toRoundedNumber_spec value digits).
Proof.
  intros n factor scaled. split; [apply round_unfold|split].
  - intros s m e HSF He H1 H2 num. exists (round_half_up s m e). split.
    + unfold Math_round. rewrite HSF.
      destruct (Z.leb_spec 0 e) as [?|_]; [lia|]. now rewrite H1, H2.
    + now apply round_half_up_nearest.
  - intros Hcase. rewrite round_unfold. unfold toRoundedNumber_spec.
    fold n factor scaled. rewrite round_half_away_eq; [reflexivity|].
    destruct Hcase as [Hneg|Htie]; [|exact Htie].
    destruct (negative_tie scaled) eqn:E; [|reflexivity].
    apply negative_tie_negative in E. congruence.
Qed.

(** ** Dates *)

(** C9. [normalizeDate] is idempotent: it returns a string in every case
    (the text it was given, a formatted date, or the empty string), and a
    string is returned as it is. *)
Theorem normalizeDate_idempotent (x : JsVal) :
  normalizeDate (JString (normalizeDate x)) = normalizeDate x
  /\ normalizeDate (JString "2025-09-30") = "2025-09-30"
  /\ normalizeDate (JDateObj (mkDate 1759215600000 2025 8 30)) = "2025-09-30"
  /\ match x with
     | JString s => normalizeDate x = s
     | JDateObj d =>
         normalizeDate x =
         if isNaN (timeValue d) then ""
         else String_of_Z (getFullYear d) +:+ "-"
              +:+ padStart2 (String_of_Z (getMonth d + 1)) +:+ "-"
              +:+ padStart2 (String_of_Z (getDate d))
     | _ => normalizeDate x = ""
     end.
Proof.
  split; [reflexivity|]. split; [reflexivity|]. split; [reflexivity|].
  destruct x as [| | b | n | s | d]; try reflexivity.
  simpl. now destruct (isNaN (timeValue d)).
Qed.

(** ** Strings *)

Lemma str_app_cons (c : ascii) (s t : string) :
  String c s +:+ t = String c (s +:+ t).
Proof. reflexivity. Qed.

Lemma str_app_nil_l (s : string) : "" +:+ s = s.
Proof. reflexivity. Qed.


Lemma str_app_assoc (a b c : string) : (a +:+ b) +:+ c = a +:+ b +:+ c.
Proof.
  induction a as [|x a IH]; [reflexivity|]. now rewrite !str_app_cons, IH.
Qed.


(** *** [extractKA] *)

Lemma match_letter_rest_no_lt (s : string) :
  no_line_terminator s = true ->
  match match_letter_rest s with Some m => m | None => "" end
  = from_first_letter s.
Proof.
  unfold no_line_terminator.
  induction s as [|c s IH]; simpl; [reflexivity|].
  intros [Hc Hs]%andb_prop. rewrite Hs, andb_true_r.
  destruct (isLetter c); [reflexivity|]. now apply IH.
Qed.

(** Where the identifier has no line terminator, [extractKA] is the
    specification's function. *)
Lemma extractKA_no_line_terminator (s : string) :
  no_line_terminator s = true ->
  extractKA (JString s) = from_first_letter s.
Proof.
  intros H. unfold extractKA. simpl.
  destruct s as [|c s]; [reflexivity|].
  change (negb (negb (String.eqb (String c s) ""))) with false.
  cbv iota. now apply match_letter_rest_no_lt.
Qed.

Lemma extractKA_absent :
  extractKA JUndefined = "" /\ extractKA JNull = "" /\ extractKA (JString "") = "".
Proof. repeat split. Qed.

(** *** [trim] *)

Lemma trimStart_decomp (s : string) :
  exists l, s = l +:+ trimStart s /\ all_ws l = true.
Proof.
  induction s as [|c s (l & Hl & Hw)]; simpl.
  - now exists "".
  - destruct (isWhiteSpace c) eqn:E.
    + exists (String c l). rewrite str_app_cons, <- Hl. split; [reflexivity|].
      simpl. now rewrite E.
    + now exists "".
Qed.

Lemma trimStart_starts (s : string) : starts_ws (trimStart s) = false.
Proof.
  induction s as [|c s IH]; simpl; [reflexivity|].
  destruct (isWhiteSpace c) eqn:E; [assumption|simpl; exact E].
Qed.

Lemma trimEnd_decomp (s : string) :
  exists r, s = trimEnd s +:+ r /\ all_ws r = true.
Proof.
  induction s as [|c s (r & Hr & Hw)]; simpl.
  - now exists "".
  - revert Hr. destruct (trimEnd s) as [|d t]; intros Hr.
    + rewrite str_app_nil_l in Hr. subst s.
      destruct (isWhiteSpace c) eqn:Ec.
      * exists (String c r). split; [reflexivity|]. simpl. now rewrite Ec.
      * now exists r.
    + exists r. split; [|assumption]. rewrite str_app_cons. now f_equal.
Qed.

Lemma trimEnd_ends (s : string) : ends_ws (trimEnd s) = false.
Proof.
  induction s as [|c s IH]; simpl; [reflexivity|].
  destruct (trimEnd s) as [|d t].
  - destruct (isWhiteSpace c) eqn:Ec; simpl; [reflexivity|exact Ec].
  - exact IH.
Qed.

Lemma trimEnd_starts (s : string) :
  starts_ws s = false -> starts_ws (trimEnd s) = false.
Proof.
  destruct s as [|c s]; simpl; [reflexivity|]. intros H.
  destruct (trimEnd s); [now rewrite H|exact H].
Qed.



Lemma trim_Trimmed (s : string) : Trimmed s (trim s).
Proof.
  unfold Trimmed, trim.
  destruct (trimStart_decomp s) as (l & Hl & Hlw).
  destruct (trimEnd_decomp (trimStart s)) as (r & Hr & Hrw).
  split; [|split].
  - exists l, r. now rewrite <- Hr.
  - apply trimEnd_starts, trimStart_starts.
  - apply trimEnd_ends.
Qed.

(** *** [replace] of a trailing word *)






(** *** [split] *)


(** *** [parseAncestry] *)



(** *** The specification's relation has one result *)















(** ** Sorting *)

Section Sort.
Context {A : Type} (cmp : A -> A -> Z).

Lemma sort_insert_perm (x : A) (l : list A) : sort_insert cmp x l ≡ₚ x :: l.
Proof.
  induction l as [|y l IH]; simpl; [reflexivity|].
  destruct (cmp x y <=? 0); [reflexivity|].
  rewrite IH. apply perm_swap.
Qed.

Lemma Array_sort_perm (l : list A) : Array_sort cmp l ≡ₚ l.
Proof.
  induction l as [|x l IH]; simpl; [reflexivity|].
  now rewrite sort_insert_perm, IH.
Qed.

Lemma Array_sort_elem_of (x : A) (l : list A) : x ∈ Array_sort cmp l <-> x ∈ l.
Proof. now rewrite Array_sort_perm. Qed.

(** The order of the result is what the standard fixes when the comparator
    is consistent on the elements, which are those that satisfy [P]. *)
Variable P : A -> Prop.
Hypothesis cmp_total : forall a b, P a -> P b -> 0 < cmp a b -> cmp b a <= 0.
Hypothesis cmp_trans :
  forall a b c, P a -> P b -> P c ->
                cmp a b <= 0 -> cmp b c <= 0 -> cmp a c <= 0.

Lemma sort_insert_sorted (x : A) (l : list A) :
  P x -> Forall P l ->
  StronglySorted (fun a b => cmp a b <= 0) l ->
  StronglySorted (fun a b => cmp a b <= 0) (sort_insert cmp x l).
Proof.
  intros Hx HP. induction 1 as [|y l Hl IH Hy]; simpl.
  - repeat constructor.
  - apply Forall_cons in HP as [HPy HPl].
    destruct (Z.leb_spec (cmp x y) 0) as [Hxy|Hxy].
    + constructor; [now constructor|]. constructor; [assumption|].
      rewrite Forall_forall in Hy, HPl |- *. intros z Hz.
      apply cmp_trans with y; auto.
    + constructor; [now apply IH|]. rewrite sort_insert_perm.
      constructor; [now apply cmp_total|assumption].
Qed.

Lemma Array_sort_sorted (l : list A) :
  Forall P l -> StronglySorted (fun a b => cmp a b <= 0) (Array_sort cmp l).
Proof.
  induction 1 as [|x l Hx Hl IH]; simpl; [constructor|].
  apply sort_insert_sorted; [assumption| |assumption].
  now rewrite Array_sort_perm.
Qed.

End Sort.

Section Collation.

(** The comparison of the host is taken to order the strings that occur,
    those of [known], and to tell them apart. *)
Variable known : list string.
Hypothesis collates : Collates known.

Lemma localeCompare_le_ne (a b : string) :
  a ∈ known -> b ∈ known -> a <> b -> (localeCompare a b <= 0 <-> str_lt a b).
Proof.
  intros Ha Hb Hne. unfold str_lt.
  pose proof (proj1 collates a b Ha Hb) as He.
  split; [|lia].
  intros Hle. destruct (Z.eq_dec (localeCompare a b) 0); [tauto|lia].
Qed.

Lemma localeCompare_le_eq (a b : string) :
  a ∈ known -> b ∈ known ->
  (localeCompare a b <= 0 <-> str_lt a b \/ a = b).
Proof.
  intros Ha Hb. unfold str_lt.
  pose proof (proj1 collates a b Ha Hb) as He. split.
  - intros Hle. destruct (Z.eq_dec (localeCompare a b) 0); [tauto|left; lia].
  - intros [?|Heq]; [lia|]. apply He in Heq. lia.
Qed.

Lemma str_lt_irrefl (a : string) : a ∈ known -> ~ str_lt a a.
Proof.
  intros Ha. unfold str_lt.
  pose proof (proj2 (proj1 collates a a Ha Ha) eq_refl). lia.
Qed.

Lemma str_lt_total (a b : string) :
  a ∈ known -> b ∈ known -> str_lt a b \/ a = b \/ str_lt b a.
Proof.
  intros Ha Hb. unfold str_lt.
  pose proof (proj1 collates a b Ha Hb).
  pose proof (proj1 (proj2 collates) b a Hb Ha).
  destruct (Z.lt_trichotomy (localeCompare a b) 0) as [?|[?|?]]; tauto.
Qed.

Lemma compareRows_le (a b : string * string * string * string) :
  fields_in known a -> fields_in known b ->
  (compareRows a b <= 0 <-> fields_le a b).
Proof.
  destruct a as [[[aA aP] aD] aK], b as [[[bA bP] bD] bK].
  intros (HaA & HaP & HaD & HaK) (HbA & HbP & HbD & HbK).
  unfold compareRows, fields_le.
  destruct (String.eqb_spec aA bA) as [->|HA]; simpl.
  2:{ rewrite localeCompare_le_ne by assumption. tauto. }
  destruct (String.eqb_spec aP bP) as [->|HP]; simpl.
  2:{ rewrite localeCompare_le_ne by assumption.
      pose proof (str_lt_irrefl bA HbA). tauto. }
  destruct (String.eqb_spec aD bD) as [->|HD]; simpl.
  2:{ rewrite localeCompare_le_ne by assumption.
      pose proof (str_lt_irrefl bA HbA). pose proof (str_lt_irrefl bP HbP).
      tauto. }
  rewrite localeCompare_le_eq by assumption.
  pose proof (str_lt_irrefl bA HbA). pose proof (str_lt_irrefl bP HbP).
  pose proof (str_lt_irrefl bD HbD). tauto.
Qed.

Lemma fields_le_total (a b : string * string * string * string) :
  fields_in known a -> fields_in known b -> fields_le a b \/ fields_le b a.
Proof.
  destruct a as [[[aA aP] aD] aK], b as [[[bA bP] bD] bK].
  intros (HaA & HaP & HaD & HaK) (HbA & HbP & HbD & HbK). unfold fields_le.
  destruct (str_lt_total aA bA) as [?|[->|?]]; [assumption..|tauto| |tauto].
  destruct (str_lt_total aP bP) as [?|[->|?]]; [assumption..|tauto| |tauto].
  destruct (str_lt_total aD bD) as [?|[->|?]]; [assumption..|tauto| |tauto].
  destruct (str_lt_total aK bK) as [?|[->|?]]; [assumption..| | |]; tauto.
Qed.

Lemma fields_le_trans (a b c : string * string * string * string) :
  fields_in known a -> fields_in known b -> fields_in known c ->
  fields_le a b -> fields_le b c -> fields_le a c.
Proof.
  destruct a as [[[aA aP] aD] aK], b as [[[bA bP] bD] bK],
           c as [[[cA cP] cD] cK].
  intros (HaA & HaP & HaD & HaK) (HbA & HbP & HbD & HbK)
         (HcA & HcP & HcD & HcK).
  unfold fields_le, str_lt.
  pose proof (proj2 (proj2 collates) aA bA cA HaA HbA HcA).
  pose proof (proj2 (proj2 collates) aP bP cP HaP HbP HcP).
  pose proof (proj2 (proj2 collates) aD bD cD HaD HbD HcD).
  pose proof (proj2 (proj2 collates) aK bK cK HaK HbK HcK).
  intros [?| [-> [?| [-> [?| [-> [?| ->]]]]]]]
         [?| [-> [?| [-> [?| [-> [?| ->]]]]]]]; tauto.
Qed.

Lemma sorted_by_fields {A} (f : A -> string * string * string * string)
  (l : list A) :
  Forall (fun x => fields_in known (f x)) l ->
  StronglySorted (fun a b => fields_le (f a) (f b))
    (Array_sort (fun a b => compareRows (f a) (f b)) l).
Proof.
  intros Hl.
  set (cmp := fun a b => compareRows (f a) (f b)).
  set (P := fun x => fields_in known (f x)) in *.
  assert (Hsorted : StronglySorted (fun a b => cmp a b <= 0) (Array_sort cmp l)).
  { apply (Array_sort_sorted cmp P); [| |exact Hl].
    - intros a b Ha Hb H.
      destruct (fields_le_total (f b) (f a) Hb Ha) as [H'|H'].
      + now apply compareRows_le.
      + apply compareRows_le in H'; [|assumption..]. unfold cmp in H. lia.
    - intros a b c Ha Hb Hc H1 H2. apply compareRows_le; [assumption..|].
      apply fields_le_trans with (f b); [assumption..| |];
        now apply compareRows_le. }
  assert (Hl' : Forall P (Array_sort cmp l)) by now rewrite Array_sort_perm.
  clear Hl. induction Hsorted as [|x l' Hs IH Hx]; constructor.
  - apply IH. now apply Forall_cons in Hl' as [_ ?].
  - apply Forall_cons in Hl' as [Hfx Hfl].
    rewrite Forall_forall in Hx, Hfl |- *. intros y Hy.
    apply compareRows_le; [exact Hfx|now apply Hfl|now apply Hx].
Qed.

End Collation.

(** ** The template rows *)

Lemma template_step_skip (st : list Template.row * gset string) (r : CY.row) :
  usable r = false -> template_step st r = st.
Proof.
  unfold usable, template_step. destruct st as [out seen].
  destruct (truthy (JString (CY.DATE r))), (truthy (JString (CY.KA r)));
    simpl; (reflexivity || discriminate).
Qed.

Lemma template_step_usable (out : list Template.row) (seen : gset string)
  (r : CY.row) :
  usable r = true ->
  template_step (out, seen) r =
  if decide (key_of r ∈ seen) then (out, seen)
  else (out ++ template_rows_of r, seen ∪ {[key_of r]}).
Proof.
  unfold usable, template_step. now intros [-> ->]%andb_prop.
Qed.

Lemma template_seen_mono (l : list CY.row) (st : list Template.row * gset string)
  (k : string) :
  k ∈ st.2 -> k ∈ (fold_left template_step l st).2.
Proof.
  revert st. induction l as [|r l IH]; intros [out seen] Hk; [exact Hk|].
  cbn [fold_left]. apply IH.
  destruct (usable r) eqn:E.
  - rewrite template_step_usable by exact E.
    destruct (decide _); [exact Hk|]. cbn in *. set_solver.
  - now rewrite template_step_skip.
Qed.

Lemma template_step_seen (st : list Template.row * gset string) (r : CY.row) :
  usable r = true -> key_of r ∈ st.2 -> template_step st r = st.
Proof.
  destruct st as [out seen]. intros E Hk.
  rewrite template_step_usable by exact E. now rewrite decide_True.
Qed.

Lemma template_step_records (st : list Template.row * gset string) (r : CY.row) :
  usable r = true -> key_of r ∈ (template_step st r).2.
Proof.
  destruct st as [out seen]. intros E.
  rewrite template_step_usable by exact E.
  destruct (decide _); [assumption|]. cbn. set_solver.
Qed.

(** A row without a date or a unit code contributes nothing. *)
Lemma template_inert_row (l1 l2 : list CY.row) (r : CY.row) :
  usable r = false ->
  makeProductionTemplateRows (l1 ++ r :: l2) = makeProductionTemplateRows (l1 ++ l2).
Proof.
  intros E. unfold makeProductionTemplateRows.
  rewrite !fold_left_app. cbn [fold_left]. now rewrite template_step_skip.
Qed.

(** A yield row that comes a second time changes nothing: the template of
    the input with the row twice is the template with the row once. *)
Lemma template_duplicate_row (l1 l2 l3 : list CY.row) (r : CY.row) :
  makeProductionTemplateRows (l1 ++ r :: l2 ++ r :: l3)
  = makeProductionTemplateRows (l1 ++ r :: l2 ++ l3).
Proof.
  unfold makeProductionTemplateRows.
  rewrite !fold_left_app. cbn [fold_left]. rewrite !fold_left_app. cbn [fold_left].
  destruct (usable r) eqn:E.
  - rewrite (template_step_seen
               (fold_left template_step l2
                  (template_step (fold_left template_step l1 ([], ∅)) r)) r E);
      [reflexivity|].
    now apply template_seen_mono, template_step_records.
  - now rewrite !template_step_skip.
Qed.

Lemma elem_of_snoc {A} (l : list A) (x y : A) : x ∈ l ++ [y] <-> x ∈ l \/ x = y.
Proof. now rewrite elem_of_app, list_elem_of_singleton. Qed.

Lemma KeyInjective_app_l (l1 l2 : list CY.row) :
  KeyInjective (l1 ++ l2) -> KeyInjective l1.
Proof.
  intros H r1 r2 H1 H2. apply H; apply elem_of_app; now left.
Qed.

Lemma template_rows_of_same (r r' : CY.row) :
  same_group r r' -> template_rows_of r = template_rows_of r'.
Proof. unfold template_rows_of. now intros (-> & -> & -> & ->). Qed.

Lemma template_rows_of_key (r : CY.row) (t : Template.row) :
  t ∈ template_rows_of r -> template_key t = key_of r.
Proof.
  unfold template_rows_of. intros (bag & -> & _)%list_elem_of_fmap. reflexivity.
Qed.

Lemma template_rows_of_NoDup (r : CY.row) : NoDup (template_rows_of r).
Proof.
  unfold template_rows_of, BAG_NUMBERS. cbn [map].
  repeat (apply NoDup_cons; split;
          [rewrite ?not_elem_of_cons; repeat split;
             try discriminate; apply not_elem_of_nil|]).
  apply NoDup_nil_2.
Qed.

(** The loop of the template builder: what [seen] holds, where the lines
    come from, that no line comes twice, and, where the keys tell the
    groups apart, that every usable row has its three lines. *)
Lemma template_loop_spec (cy : list CY.row) :
  let st := fold_left template_step cy ([], ∅) in
  (forall k, k ∈ st.2 <-> exists r, r ∈ cy /\ usable r = true /\ key_of r = k)
  /\ (forall t, t ∈ st.1 ->
                template_key t ∈ st.2
                /\ exists r, r ∈ cy /\ usable r = true /\ t ∈ template_rows_of r)
  /\ NoDup st.1
  /\ (KeyInjective cy ->
      forall r t, r ∈ cy -> usable r = true -> t ∈ template_rows_of r -> t ∈ st.1).
Proof.
  induction cy as [|r l IH] using rev_ind.
  - cbn. split; [|split; [|split]].
    + intros k. split; [set_solver|]. now intros (r & []%elem_of_nil & _).
    + now intros t []%elem_of_nil.
    + apply NoDup_nil_2.
    + now intros _ r t []%elem_of_nil.
  - cbv zeta in *. rewrite fold_left_app. cbn [fold_left].
    destruct (fold_left template_step l ([], ∅)) as [out seen] eqn:Est.
    cbn [fst snd] in IH. destruct IH as (IHseen & IHout & IHnd & IHall).
    destruct (usable r) eqn:E.
    2:{ rewrite template_step_skip by exact E. cbn [fst snd].
        split; [|split; [|split]].
        - intros k. rewrite IHseen. split.
          + intros (r' & ? & ?). exists r'. split; [apply elem_of_app; now left|auto].
          + intros (r' & [?| ->]%elem_of_snoc & Hu & ?);
              [now exists r'|congruence].
        - intros t Ht. destruct (IHout t Ht) as (? & r' & ? & ?).
          split; [assumption|]. exists r'. split; [apply elem_of_app; now left|auto].
        - exact IHnd.
        - intros HK r' t [?| ->]%elem_of_snoc Hu Ht;
            [|congruence].
          apply (IHall (KeyInjective_app_l _ _ HK) r' t); assumption. }
    rewrite template_step_usable by exact E.
    destruct (decide (key_of r ∈ seen)) as [Hin|Hout]; cbn [fst snd].
    + split; [|split; [|split]].
      * intros k. rewrite IHseen. split.
        -- intros (r' & ? & ?). exists r'. split; [apply elem_of_app; now left|auto].
        -- intros (r' & [?| ->]%elem_of_snoc & Hu & <-);
             [now exists r'|]. now apply IHseen.
      * intros t Ht. destruct (IHout t Ht) as (? & r' & ? & ?).
        split; [assumption|]. exists r'. split; [apply elem_of_app; now left|auto].
      * exact IHnd.
      * intros HK r' t [?| ->]%elem_of_snoc Hu Ht.
        -- apply (IHall (KeyInjective_app_l _ _ HK) r' t); assumption.
        -- apply IHseen in Hin as (r0 & Hr0 & Hu0 & Hk0).
           assert (same_group r0 r) as Hsame.
           { apply HK; [apply elem_of_app; now left| |exact Hk0].
             apply elem_of_app; right; now left. }
           rewrite <- (template_rows_of_same _ _ Hsame) in Ht.
           apply (IHall (KeyInjective_app_l _ _ HK) r0 t); assumption.
    + split; [|split; [|split]].
      * intros k. rewrite elem_of_union, elem_of_singleton, IHseen. split.
        -- intros [(r' & ? & ?)| ->].
           ++ exists r'. split; [apply elem_of_app; now left|auto].
           ++ exists r. split; [apply elem_of_app; right; now left|auto].
        -- intros (r' & [?| ->]%elem_of_snoc & Hu & <-);
             [left; now exists r'|now right].
      * intros t [Ht|Ht]%elem_of_app.
        -- destruct (IHout t Ht) as (? & r' & ? & ?).
           split; [apply elem_of_union; now left|].
           exists r'. split; [apply elem_of_app; now left|auto].
        -- split.
           ++ rewrite (template_rows_of_key _ _ Ht).
              apply elem_of_union. right. now apply elem_of_singleton.
           ++ exists r. split; [apply elem_of_app; right; now left|auto].
      * apply NoDup_app. split; [exact IHnd|]. split; [|apply template_rows_of_NoDup].
        intros t Ht Ht'. apply Hout.
        rewrite <- (template_rows_of_key _ _ Ht'). now apply IHout.
      * intros HK r' t [?| ->]%elem_of_snoc Hu Ht.
        -- apply elem_of_app. left.
           apply (IHall (KeyInjective_app_l _ _ HK) r' t); assumption.
        -- apply elem_of_app. now right.
Qed.

(** X20. Where the keys tell the groups apart, the template has exactly one
    line for each usable (date, allotment, pasture, ka) and each bag number
    in [1; 3; 5], and nothing else. *)
Lemma template_exactly_once (cy : list CY.row) :
  NoDup (makeProductionTemplateRows cy)
  /\ (forall t, t ∈ makeProductionTemplateRows cy ->
                exists r, r ∈ cy /\ usable r = true /\ t ∈ template_rows_of r)
  /\ (KeyInjective cy ->
      forall r bag, r ∈ cy -> usable r = true -> bag ∈ BAG_NUMBERS ->
        Template.mk (CY.DATE r) (CY.ALLOTMENT r) (CY.PASTURE r) (CY.KA r)
                    bag "" "" "" "" ∈ makeProductionTemplateRows cy).
Proof.
  unfold makeProductionTemplateRows.
  destruct (template_loop_spec cy) as (_ & Hout & Hnd & Hall).
  cbv zeta in *. split; [|split].
  - now rewrite Array_sort_perm.
  - intros t Ht%Array_sort_elem_of. now apply Hout.
  - intros HK r bag Hr Hu Hbag. apply Array_sort_elem_of.
    apply (Hall HK r); [assumption..|].
    unfold template_rows_of. apply list_elem_of_fmap. now exists bag.
Qed.

(** ** The calibration fit *)

Lemma js_or_same (x : JsVal) : js_or x x = x.
Proof. unfold js_or. now destruct (truthy x). Qed.

Lemma cal_rows_of_snoc (U : string) (l : list Cal.row) (r : Cal.row) :
  cal_rows_of U (l ++ [r]) =
  cal_rows_of U l ++
  (if decide (cal_eligible r = true /\ ToString (Cal.KA r) = U) then [r] else []).
Proof.
  unfold cal_rows_of. now rewrite filter_app.
Qed.

Lemma stats_of_snoc (l : list Cal.row) (r : Cal.row) :
  stats_of (l ++ [r]) =
  Some (let st := default (Stats.mk 0 0 0) (stats_of l) in
        Stats.mk (Stats.sumXY st + asNumber (Cal.BAG r) * asNumber (Cal.NET_WT r))
                 (Stats.sumX2 st + asNumber (Cal.BAG r) * asNumber (Cal.BAG r))
                 (Stats.count st + 1)).
Proof.
  unfold stats_of.
  destruct (l ++ [r]) as [|x l'] eqn:E; [now destruct l|]. rewrite <- E. clear E.
  unfold sumXY_of, sumX2_of. rewrite !fold_left_app, length_app. simpl.
  f_equal. destruct l as [|y l]; simpl; [reflexivity|].
  f_equal. lia.
Qed.

(** The accumulator of a unit code after the loop over the rows. *)
Lemma perKA_spec (prodRows : list Cal.row) (U : string) :
  fold_left slopes_step prodRows ∅ !! U =
  if inherited U then None else stats_of (cal_rows_of U prodRows).
Proof.
  induction prodRows as [|r l IH] using rev_ind;
    [now destruct (inherited U)|].
  rewrite fold_left_app, cal_rows_of_snoc. simpl.
  set (perKA := fold_left slopes_step l ∅) in *.
  unfold slopes_step. rewrite js_or_same.
  destruct (decide _) as [[He <-]|Hn].
  - unfold cal_eligible in He. apply andb_prop in He as [[H1 H2]%andb_prop H3].
    rewrite H1, H2, H3. simpl.
    rewrite lookup_alter_eq.
    destruct (inherited (ToString (Cal.KA r))) eqn:Ei.
    + now rewrite !IH.
    + rewrite stats_of_snoc, <- IH.
      destruct (perKA !! ToString (Cal.KA r)) as [st|] eqn:E.
      * now rewrite E.
      * now rewrite lookup_insert_eq.
  - rewrite app_nil_r, <- IH.
    destruct (negb (truthy (Cal.KA r)) || negb (Number_isFinite (asNumber (Cal.BAG r)))
              || negb (Number_isFinite (asNumber (Cal.NET_WT r)))) eqn:Eg;
      [reflexivity|].
    assert (ToString (Cal.KA r) <> U) as Hne.
    { intros HU. apply Hn. split; [|exact HU]. unfold cal_eligible.
      apply orb_false_elim in Eg as [[H1 H2]%orb_false_elim H3].
      apply negb_false_iff in H1, H2, H3. now rewrite H1, H2, H3. }
    rewrite lookup_alter_ne by exact Hne.
    destruct (perKA !! ToString (Cal.KA r)); [reflexivity|].
    destruct (inherited (ToString (Cal.KA r))); [reflexivity|].
    now rewrite lookup_insert_ne.
Qed.

(** What the slope table holds for a unit code. *)
Lemma computeSlopesByKA_lookup (prodRows : list Cal.row) (U : string) :
  computeSlopesByKA prodRows !! U =
  if inherited U then None else fitted_slope U prodRows.
Proof.
  unfold computeSlopesByKA, fitted_slope. cbv zeta.
  rewrite lookup_omap, perKA_spec.
  destruct (inherited U); [reflexivity|]. unfold stats_of.
  destruct (cal_rows_of U prodRows) as [|r l] eqn:E; reflexivity.
Qed.

(** A Number equal to zero is one of the two zeros. *)
Lemma float_eqb_zero (x : float) :
  (x =? 0)%float = true -> x = 0%float \/ x = (-0)%float.
Proof.
  intros H. rewrite FloatAxioms.eqb_spec in H.
  rewrite <- (FloatAxioms.SF2Prim_Prim2SF x).
  change (Prim2SF 0) with (S754_zero false) in H.
  destruct (Prim2SF x) as [[|]|[|]| |[|] m e]; try discriminate H.
  - now right.
  - now left.
Qed.

(** Rows whose bag number is zero leave [sumX2] at zero. *)
Lemma sumX2_of_zero (l : list Cal.row) :
  Forall (fun r => (asNumber (Cal.BAG r) =? 0)%float = true) l ->
  sumX2_of l = 0%float.
Proof.
  unfold sumX2_of. induction 1 as [|r l Hr Hl IH]; [reflexivity|].
  cbn [fold_left].
  destruct (float_eqb_zero _ Hr) as [-> | ->]; exact IH.
Qed.

(** ** The groups of the aggregator *)

Lemma obj_get_add {V} (k k' : string) (v : V) (o : list (string * V)) :
  obj_get k (obj_add k' v o) =
  match obj_get k o with
  | Some x => Some x
  | None => if decide (k' = k) then Some v else None
  end.
Proof.
  unfold obj_add. induction o as [|[k1 v1] o IH]; simpl; [reflexivity|].
  now destruct (decide (k1 = k)).
Qed.

Lemma obj_get_update {V} (f : V -> V) (k k' : string) (o : list (string * V)) :
  obj_get k (obj_update f k' o) =
  if decide (k' = k) then f <$> obj_get k o else obj_get k o.
Proof.
  induction o as [|[k1 v1] o IH]; simpl; [now destruct (decide (k' = k))|].
  destruct (decide (k1 = k')) as [->|H1]; simpl.
  - now destruct (decide (k' = k)).
  - destruct (decide (k1 = k)) as [->|H2].
    + now destruct (decide (k' = k)); [congruence|].
    + exact IH.
Qed.

Lemma obj_update_keys {V} (f : V -> V) (k : string) (o : list (string * V)) :
  (obj_update f k o).*1 = o.*1.
Proof.
  induction o as [|[k1 v1] o IH]; simpl; [reflexivity|].
  destruct (decide (k1 = k)); simpl; [reflexivity|]. f_equal. exact IH.
Qed.

Lemma obj_get_None {V} (k : string) (o : list (string * V)) :
  obj_get k o = None <-> k ∉ o.*1.
Proof.
  induction o as [|[k1 v1] o IH]; simpl.
  - split; [intros _; apply not_elem_of_nil|reflexivity].
  - rewrite not_elem_of_cons. destruct (decide (k1 = k)) as [->|H].
    + split; [discriminate|tauto].
    + rewrite IH. split; [intros ?; split; [congruence|assumption]|tauto].
Qed.

Lemma obj_get_elem_of {V} (k : string) (v : V) (o : list (string * V)) :
  NoDup o.*1 -> (obj_get k o = Some v <-> (k, v) ∈ o).
Proof.
  induction o as [|[k1 v1] o IH]; simpl.
  - intros _. split; [discriminate|intros H; inversion H].
  - intros [Hk Hnd]%NoDup_cons. rewrite elem_of_cons.
    destruct (decide (k1 = k)) as [->|H].
    + split; [intros [= ->]; now left|].
      intros [[= ->]|Hin]; [reflexivity|].
      exfalso. apply Hk. apply list_elem_of_fmap. now exists (k, v).
    + rewrite (IH Hnd). split; [tauto|]. intros [[= ? ?]|?]; [congruence|assumption].
Qed.

(** The yield row counts for the loop of [computeProductionFromCY]. *)
Lemma groups_step_skip (groups : list (string * Group.t)) (r : CY.row) :
  eligible r = false -> groups_step groups r = groups.
Proof.
  unfold eligible, groups_step. rewrite js_or_same.
  destruct (truthy (JString (CY.KA r))), (truthy (JString (CY.DATE r)));
    simpl; try reflexivity.
  now intros ->.
Qed.

Lemma groups_step_count (groups : list (string * Group.t)) (r : CY.row) :
  eligible r = true ->
  groups_step groups r =
  obj_update (bump (asNumber (CY.nValue r))) (key_of r)
    (match obj_get (key_of r) groups with
     | None => obj_add (key_of r) (fresh_group r) groups
     | Some _ => groups
     end).
Proof.
  unfold eligible, groups_step. rewrite js_or_same.
  intros [[-> ->]%andb_prop ->]%andb_prop. reflexivity.
Qed.

Lemma groups_step_keys (groups : list (string * Group.t)) (r : CY.row) :
  NoDup groups.*1 -> NoDup (groups_step groups r).*1.
Proof.
  intros Hnd. destruct (eligible r) eqn:E.
  - rewrite groups_step_count by exact E. rewrite obj_update_keys.
    destruct (obj_get (key_of r) groups) eqn:Eg; [assumption|].
    unfold obj_add. rewrite fmap_app. simpl. apply NoDup_app.
    split; [assumption|]. split; [|apply NoDup_singleton].
    intros k Hk ->%list_elem_of_singleton. now apply obj_get_None in Eg.
  - now rewrite groups_step_skip.
Qed.

Lemma groups_keys (cy : list CY.row) : NoDup (fold_left groups_step cy []).*1.
Proof.
  induction cy as [|r l IH] using rev_ind; [apply NoDup_nil_2|].
  rewrite fold_left_app. simpl. now apply groups_step_keys.
Qed.

Lemma group_record_snoc (m : list CY.row) (r : CY.row) :
  group_record (m ++ [r]) =
  Some (bump (asNumber (CY.nValue r)) (default (fresh_group r) (group_record m))).
Proof.
  destruct m as [|r0 m]; [reflexivity|].
  unfold group_record, bump, sum_nValue. simpl.
  rewrite fold_left_app, length_app. simpl. do 2 f_equal. lia.
Qed.

(** What [groups] holds under a key after the loop over the yield rows. *)
Lemma groups_spec (cy : list CY.row) (k : string) :
  obj_get k (fold_left groups_step cy []) = group_record (members k cy).
Proof.
  induction cy as [|r l IH] using rev_ind; [reflexivity|].
  rewrite fold_left_app. simpl. unfold members. rewrite filter_app.
  fold (members k l). set (groups := fold_left groups_step l []) in *.
  destruct (eligible r) eqn:E.
  - rewrite groups_step_count by exact E. rewrite obj_get_update.
    destruct (decide (key_of r = k)) as [<-|Hne].
    + rewrite filter_cons_True by now split.
      rewrite filter_nil, group_record_snoc, <- IH.
      destruct (obj_get (key_of r) groups) as [g|] eqn:Eg; simpl.
      * now rewrite Eg.
      * rewrite obj_get_add, Eg. now rewrite decide_True.
    + rewrite filter_cons_False by (intros [_ ?]; contradiction).
      rewrite filter_nil, app_nil_r, <- IH.
      destruct (obj_get (key_of r) groups) as [g|] eqn:Eg; [reflexivity|].
      rewrite obj_get_add. destruct (obj_get k groups); [reflexivity|].
      now rewrite decide_False.
  - rewrite groups_step_skip by exact E.
    rewrite filter_cons_False by (intros [? _]; congruence).
    now rewrite filter_nil, app_nil_r.
Qed.

(** ** The production rows *)

Lemma elem_of_Set_add (k k' : string) (s : list string) :
  k' ∈ Set_add k s <-> k' = k \/ k' ∈ s.
Proof.
  unfold Set_add. destruct (decide (k ∈ s)) as [Hin|Hout].
  - split; [now right|]. now intros [->|?].
  - rewrite elem_of_app, list_elem_of_singleton. tauto.
Qed.

Lemma production_step_eq (slopes : gmap string float)
  (out : list Production.row) (miss : list string) (g : Group.t) :
  Group.count g <> 0 ->
  production_step slopes (out, miss) g =
  if finite_slope slopes (Group.KA g)
  then (out ++ [production_row g (default 0%float (slopes !! Group.KA g))], miss)
  else (out, Set_add (Group.KA g) miss).
Proof.
  intros Hg%Z.eqb_neq. unfold production_step, finite_slope. rewrite Hg.
  destruct (slopes !! Group.KA g) as [slope|]; [|reflexivity].
  now destruct (Number_isFinite slope).
Qed.

Lemma finite_slope_Some (slopes : gmap string float) (k : string) :
  finite_slope slopes k = true <->
  exists s, slopes !! k = Some s /\ Number_isFinite s = true.
Proof.
  unfold finite_slope. destruct (slopes !! k) as [s|].
  - split; [intros H; now exists s|]. now intros (s' & [= ->] & ?).
  - split; [discriminate|]. now intros (s' & [=] & ?).
Qed.

Lemma production_fold (slopes : gmap string float) (gs : list Group.t) :
  Forall (fun g => Group.count g <> 0) gs ->
  forall out miss,
  (forall row,
     row ∈ (fold_left (production_step slopes) gs (out, miss)).1 <->
     row ∈ out \/
     exists g s, g ∈ gs /\ slopes !! Group.KA g = Some s
                 /\ Number_isFinite s = true /\ row = production_row g s)
  /\ (forall k,
        k ∈ (fold_left (production_step slopes) gs (out, miss)).2 <->
        k ∈ miss \/
        exists g, g ∈ gs /\ Group.KA g = k /\ finite_slope slopes k = false).
Proof.
  induction 1 as [|g gs Hg Hgs IH]; intros out miss.
  - simpl. split; intros x; (split; [now left|]).
    + intros [?|(g & s & []%elem_of_nil & _)]. assumption.
    + intros [?|(g & []%elem_of_nil & _)]. assumption.
  - cbn [fold_left]. rewrite production_step_eq by exact Hg.
    destruct (finite_slope slopes (Group.KA g)) eqn:Ef.
    + destruct (proj1 (finite_slope_Some _ _) Ef) as (slope & Es & Hfin).
      rewrite Es. cbn [default].
      destruct (IH (out ++ [production_row g slope]) miss) as [IH1 IH2].
      split.
      * intros row. rewrite IH1, elem_of_app, list_elem_of_singleton. split.
        -- intros [[?| ->]|(g' & s & Hin & ?)]; [now left| |].
           ++ right. exists g, slope. split; [now left|auto].
           ++ right. exists g', s. split; [now right|auto].
        -- intros [?|(g' & s & [->|Hin]%elem_of_cons & Hs & Hf & ->)].
           ++ now left; left.
           ++ left; right. congruence.
           ++ right. now exists g', s.
      * intros k. rewrite IH2. split.
        -- intros [?|(g' & Hin & ?)]; [now left|].
           right. exists g'. split; [now right|auto].
        -- intros [?|(g' & [->|Hin]%elem_of_cons & <- & Hf)]; [now left| |].
           ++ congruence.
           ++ right. now exists g'.
    + destruct (IH out (Set_add (Group.KA g) miss)) as [IH1 IH2].
      split.
      * intros row. rewrite IH1. split.
        -- intros [?|(g' & s & Hin & ?)]; [now left|].
           right. exists g', s. split; [now right|auto].
        -- intros [?|(g' & s & [->|Hin]%elem_of_cons & Hs & Hf & ->)];
             [now left| |].
           ++ assert (finite_slope slopes (Group.KA g) = true)
                by (apply finite_slope_Some; eauto). congruence.
           ++ right. now exists g', s.
      * intros k. rewrite IH2, elem_of_Set_add. split.
        -- intros [[->|?]|(g' & Hin & ?)]; [|now left|].
           ++ right. exists g. split; [now left|]. now split.
           ++ right. exists g'. split; [now right|auto].
        -- intros [?|(g' & [->|Hin]%elem_of_cons & <- & Hf)].
           ++ now left; right.
           ++ now left; left.
           ++ right. now exists g'.
Qed.

Lemma groups_values_spec (cy : list CY.row) (g : Group.t) :
  g ∈ Object_values (fold_left groups_step cy []) <->
  exists k, group_record (members k cy) = Some g.
Proof.
  unfold Object_values. rewrite list_elem_of_fmap. split.
  - intros ([k g'] & -> & Hin). exists k. rewrite <- groups_spec.
    apply obj_get_elem_of; [apply groups_keys|exact Hin].
  - intros (k & Hk). exists (k, g). split; [reflexivity|].
    apply obj_get_elem_of; [apply groups_keys|]. now rewrite groups_spec.
Qed.

Lemma members_elem_of (k : string) (cy : list CY.row) (r : CY.row) :
  r ∈ members k cy <-> r ∈ cy /\ eligible r = true /\ key_of r = k.
Proof. unfold members. rewrite list_elem_of_filter. tauto. Qed.

(** A group counts the rows of its key, of which there is at least the one
    that created it. *)
Lemma groups_count_members (cy : list CY.row) (g : Group.t) :
  g ∈ Object_values (fold_left groups_step cy []) ->
  exists r, r ∈ cy /\ eligible r = true
            /\ Group.count g = Z.of_nat (List.length (members (key_of r) cy))
            /\ (0 < List.length (members (key_of r) cy))%nat.
Proof.
  intros (k & Hk)%groups_values_spec.
  destruct (members k cy) as [|r0 m] eqn:Em; [discriminate|].
  assert (Hr0 : r0 ∈ members k cy) by (rewrite Em; now left).
  apply members_elem_of in Hr0 as (Hin & He & <-).
  injection Hk as <-. cbn [Group.count].
  exists r0. rewrite Em. repeat split; try assumption. simpl. lia.
Qed.

Lemma groups_nonzero (cy : list CY.row) :
  Forall (fun g => Group.count g <> 0)
         (Object_values (fold_left groups_step cy [])).
Proof.
  apply Forall_forall. intros g (r & _ & _ & -> & Hpos)%groups_count_members. lia.
Qed.

(** C10. Every group the loop over the yield rows leaves in [groups] was
    created by a row with a non-empty [KA] and [DATE] and a finite yield
    value and counts the rows of its key, that row included: its [count] is
    at least 1, the divisor of [sumN / count] is not zero, and the guard
    [!g.count] before the division is false for it. *)
Theorem groups_count_positive (cy : list CY.row) :
  Forall (fun g =>
            1 <= Group.count g
            /\ Group.count g <> 0
            /\ (Group.count g =? 0) = false
            /\ exists r, r ∈ cy /\ eligible r = true
                         /\ Group.count g
                            = Z.of_nat (List.length (members (key_of r) cy)))
         (Object_values (fold_left groups_step cy [])).
Proof.
  apply Forall_forall.
  intros g (r & Hin & He & Hc & Hpos)%groups_count_members.
  split; [lia|]. split; [lia|]. split; [apply Z.eqb_neq; lia|].
  now exists r.
Qed.

Lemma computeProductionFromCY_rows (cy : list CY.row) (prod : list Cal.row) :
  Production.rows (computeProductionFromCY cy prod) =
  Array_sort (fun a b => compareRows (productionFields a) (productionFields b))
    (fold_left (production_step (computeSlopesByKA prod))
               (Object_values (fold_left groups_step cy [])) ([], [])).1.
Proof. unfold computeProductionFromCY. now destruct (fold_left _ _ _). Qed.

Lemma computeProductionFromCY_missingKAs (cy : list CY.row) (prod : list Cal.row) :
  Production.missingKAs (computeProductionFromCY cy prod) =
  (fold_left (production_step (computeSlopesByKA prod))
             (Object_values (fold_left groups_step cy [])) ([], [])).2.
Proof. unfold computeProductionFromCY. now destruct (fold_left _ _ _). Qed.

Lemma computeProductionFromCY_slopes (cy : list CY.row) (prod : list Cal.row) :
  Production.slopes (computeProductionFromCY cy prod) = computeSlopesByKA prod.
Proof. unfold computeProductionFromCY. now destruct (fold_left _ _ _). Qed.

(** The output rows: one for each group whose unit code has a finite slope. *)
Lemma rows_spec (cy : list CY.row) (prod : list Cal.row) (row : Production.row) :
  row ∈ Production.rows (computeProductionFromCY cy prod) <->
  exists k g s, group_record (members k cy) = Some g
                /\ computeSlopesByKA prod !! Group.KA g = Some s
                /\ Number_isFinite s = true /\ row = production_row g s.
Proof.
  rewrite computeProductionFromCY_rows, Array_sort_elem_of.
  destruct (production_fold (computeSlopesByKA prod) _ (groups_nonzero cy) [] [])
    as [-> _].
  split.
  - intros [[]%elem_of_nil|(g & s & (k & Hk)%groups_values_spec & ?)].
    now exists k, g, s.
  - intros (k & g & s & Hk & ?). right. exists g, s.
    split; [apply groups_values_spec; now exists k|assumption].
Qed.

(** The missing-calibration list: the unit codes of the groups that have no
    finite slope. *)
Lemma missingKAs_spec (cy : list CY.row) (prod : list Cal.row) (U : string) :
  U ∈ Production.missingKAs (computeProductionFromCY cy prod) <->
  exists k g, group_record (members k cy) = Some g /\ Group.KA g = U
              /\ finite_slope (computeSlopesByKA prod) U = false.
Proof.
  rewrite computeProductionFromCY_missingKAs.
  destruct (production_fold (computeSlopesByKA prod) _ (groups_nonzero cy) [] [])
    as [_ ->].
  split.
  - intros [[]%elem_of_nil|(g & (k & Hk)%groups_values_spec & ?)].
    now exists k, g.
  - intros (k & g & Hk & ?). right. exists g.
    split; [apply groups_values_spec; now exists k|assumption].
Qed.

Lemma same_group_key (r r' : CY.row) : same_group r r' -> key_of r = key_of r'.
Proof. unfold key_of. now intros (-> & -> & -> & ->). Qed.

Lemma filter_ext_elem {A} (P Q : A -> Prop) `{!forall x, Decision (P x)}
  `{!forall x, Decision (Q x)} (l : list A) :
  (forall x, x ∈ l -> (P x <-> Q x)) -> filter P l = filter Q l.
Proof.
  induction l as [|x l IH]; intros Hext; [reflexivity|].
  rewrite !filter_cons.
  rewrite IH by (intros y Hy; apply Hext; now right).
  destruct (decide (P x)) as [HP|HP], (decide (Q x)) as [HQ|HQ];
    try reflexivity; exfalso.
  - apply HQ. apply (Hext x); [now left|exact HP].
  - apply HP. apply (Hext x); [now left|exact HQ].
Qed.

Lemma members_group_of (cy : list CY.row) (r : CY.row) :
  KeyInjective cy -> r ∈ cy -> members (key_of r) cy = group_of r cy.
Proof.
  intros HK Hr. unfold members, group_of. apply filter_ext_elem.
  intros r' Hr'. split; intros [He H]; (split; [assumption|]).
  - apply HK; [assumption..|]. now symmetry.
  - symmetry. now apply same_group_key.
Qed.

(** Where the keys tell the groups apart, the record [groups] holds for the
    key of a row that counts is the record of the row's group. *)
Lemma group_of_record (cy : list CY.row) (r : CY.row) :
  KeyInjective cy -> r ∈ cy -> eligible r = true ->
  exists g, group_record (members (key_of r) cy) = Some g
            /\ Group.KA g = CY.KA r
            /\ forall s, production_row g s = production_row_of r cy s.
Proof.
  intros HK Hr He.
  assert (Hm : r ∈ members (key_of r) cy) by now apply members_elem_of.
  unfold production_row_of, avgYieldValue.
  rewrite <- (members_group_of cy r HK Hr).
  destruct (members (key_of r) cy) as [|r0 m] eqn:Em; [now apply elem_of_nil in Hm|].
  assert (Hr0 : r0 ∈ members (key_of r) cy) by (rewrite Em; now left).
  apply members_elem_of in Hr0 as (Hin0 & He0 & Hk0).
  destruct (HK r r0 Hr Hin0 (eq_sym Hk0)) as (HD & HA & HP & HKA).
  eexists. split; [reflexivity|]. split; [now simpl|].
  intros s. unfold production_row. cbn [Group.DATE Group.ALLOTMENT Group.PASTURE
    Group.KA Group.sumN Group.count]. now rewrite HD, HA, HP, HKA.
Qed.

(** The output has no second row with the four fields of a group. *)
Lemma production_row_unique (cy : list CY.row) (prod : list Cal.row)
  (r : CY.row) (slope : float) (row : Production.row) :
  KeyInjective cy -> r ∈ cy -> eligible r = true ->
  computeSlopesByKA prod !! CY.KA r = Some slope ->
  row ∈ Production.rows (computeProductionFromCY cy prod) ->
  productionFields row = (CY.ALLOTMENT r, CY.PASTURE r, CY.DATE r, CY.KA r) ->
  row = production_row_of r cy slope.
Proof.
  intros HK Hr He Hs (k & g & s & Hk & Hs' & _ & ->)%rows_spec Hfields.
  destruct (group_of_record cy r HK Hr He) as (g' & Hg' & HKA' & Hrow').
  assert (k = key_of r) as ->.
  { destruct (members k cy) as [|r0 m] eqn:Em; [discriminate|].
    assert (Hr0 : r0 ∈ members k cy) by (rewrite Em; now left).
    apply members_elem_of in Hr0 as (_ & _ & <-).
    injection Hk as <-. unfold productionFields, production_row in Hfields.
    cbn in Hfields. injection Hfields as HA HP HD HKA.
    unfold key_of. now rewrite HA, HP, HD, HKA. }
  rewrite Hk in Hg'. injection Hg' as <-.
  rewrite HKA', Hs in Hs'. injection Hs' as <-. apply Hrow'.
Qed.

(** C1 (amended). On an input whose keys tell the groups apart, for every
    yield row that counts, if the slope table has a finite slope for the
    row's unit code then the output has the row of its group, and no other
    row with its four fields: the average yield value rounded to 3
    decimals, the slope rounded to 4, and slope * average * 55.7612 (from
    the unrounded factors) rounded to 2. *)
Theorem production_row_emitted (cy : list CY.row) (prod : list Cal.row)
  (r : CY.row) (slope : float) :
  KeyInjective cy -> r ∈ cy -> eligible r = true ->
  computeSlopesByKA prod !! CY.KA r = Some slope ->
  Number_isFinite slope = true ->
  production_row_of r cy slope ∈ Production.rows (computeProductionFromCY cy prod)
  /\ forall row,
       row ∈ Production.rows (computeProductionFromCY cy prod) ->
       productionFields row = (CY.ALLOTMENT r, CY.PASTURE r, CY.DATE r, CY.KA r) ->
       row = production_row_of r cy slope.
Proof.
  intros HK Hr He Hs Hf. split.
  - apply rows_spec.
    destruct (group_of_record cy r HK Hr He) as (g & Hg & HKA & Hrow).
    exists (key_of r), g, slope. rewrite HKA. auto.
  - intros row. now apply production_row_unique.
Qed.

(** C2 (amended). A unit code with no entry in the slope table, when it is
    the unit code of a yield row that counts (non-empty date and ka, finite
    yield value) on an input whose keys tell the groups apart, is in the
    missing-calibration list; and no output row has that unit code. *)
Theorem missing_calibration_spec (cy : list CY.row) (prod : list Cal.row)
  (U : string) :
  computeSlopesByKA prod !! U = None ->
  (forall r, KeyInjective cy -> r ∈ cy -> eligible r = true -> CY.KA r = U ->
             U ∈ Production.missingKAs (computeProductionFromCY cy prod))
  /\ (forall row, row ∈ Production.rows (computeProductionFromCY cy prod) ->
                  Production.KA row <> U).
Proof.
  intros HU. split.
  - intros r HK Hr He <-. apply missingKAs_spec.
    destruct (group_of_record cy r HK Hr He) as (g & Hg & HKA & _).
    exists (key_of r), g. split; [assumption|]. split; [assumption|].
    unfold finite_slope. now rewrite HU.
  - intros row (k & g & s & _ & Hs & _ & ->)%rows_spec. cbn. congruence.
Qed.

(** * Further properties

    What the functions guarantee beyond the sentences of the
    specification. *)

(** ** The field normalisers *)

Lemma isLetter_not_line_terminator (c : ascii) :
  isLetter c = true -> isLineTerminator c = false.
Proof.
  destruct c as [[] [] [] [] [] [] [] []]; vm_compute; congruence.
Qed.

Lemma match_letter_rest_last_line (s : string) :
  match match_letter_rest s with Some m => m | None => "" end
  = from_first_letter (last_line s).
Proof.
  induction s as [|c s IH]; [reflexivity|].
  cbn [last_line]. destruct (no_line_terminator (String c s)) eqn:E.
  - now apply match_letter_rest_no_lt.
  - cbn [match_letter_rest]. fold (no_line_terminator s).
    destruct (isLetter c && no_line_terminator s) eqn:E'; [|exact IH].
    apply andb_prop in E' as [Hc Hs].
    apply isLetter_not_line_terminator in Hc.
    unfold no_line_terminator in E, Hs. simpl in E.
    rewrite Hc, Hs in E. discriminate.
Qed.

(** X1. For every cell value, [extractKA] gives the text from the first
    letter of the LAST LINE of the cell's text to the end (nothing when the
    cell is empty or absent, or the last line has no letter): the pattern
    cannot cross a line terminator. *)
Theorem extractKA_last_line (siteId : JsVal) :
  extractKA siteId =
  if truthy siteId then from_first_letter (last_line (ToString siteId)) else "".
Proof.
  unfold extractKA. destruct (truthy siteId); [|reflexivity].
  apply match_letter_rest_last_line.
Qed.

Lemma from_first_letter_shape (s : string) :
  (from_first_letter s = "" \/ starts_with_letter (from_first_letter s) = true)
  /\ exists p, s = p +:+ from_first_letter s.
Proof.
  induction s as [|c s [IH1 [p IH2]]]; simpl.
  - split; [now left|now exists ""].
  - destruct (isLetter c) eqn:E.
    + split; [right; exact E|now exists ""].
    + split; [exact IH1|]. exists (String c p). rewrite str_app_cons. now f_equal.
Qed.

Lemma from_first_letter_no_lt (s : string) :
  no_line_terminator s = true -> no_line_terminator (from_first_letter s) = true.
Proof.
  unfold no_line_terminator. induction s as [|c s IH]; simpl; [reflexivity|].
  intros H. destruct (isLetter c); [exact H|].
  apply andb_prop in H as [_ H]. now apply IH.
Qed.

Lemma from_first_letter_id (s : string) :
  starts_with_letter s = true -> from_first_letter s = s.
Proof. destruct s as [|c s]; simpl; [discriminate|]. now intros ->. Qed.

Lemma last_line_shape (s : string) :
  no_line_terminator (last_line s) = true /\ exists p, s = p +:+ last_line s.
Proof.
  induction s as [|c s [IH1 [p IH2]]]; [split; [reflexivity|now exists ""]|].
  cbn [last_line]. destruct (no_line_terminator (String c s)) eqn:E.
  - split; [exact E|now exists ""].
  - split; [exact IH1|]. exists (String c p). rewrite str_app_cons. now f_equal.
Qed.

Lemma last_line_id (s : string) : no_line_terminator s = true -> last_line s = s.
Proof. destruct s as [|c s]; [reflexivity|]. cbn [last_line]. now intros ->. Qed.

Lemma extractKA_clean (siteId : JsVal) : clean_KA (extractKA siteId) = true.
Proof.
  unfold extractKA, clean_KA. destruct (truthy siteId); [|reflexivity].
  cbn [negb]. rewrite match_letter_rest_last_line.
  destruct (last_line_shape (ToString siteId)) as [Hl _].
  rewrite (from_first_letter_no_lt _ Hl), andb_true_r.
  destruct (from_first_letter_shape (last_line (ToString siteId)))
    as [[-> | ->] _]; [reflexivity|apply orb_true_r].
Qed.

(** X2. The unit code [extractKA] gives is empty or begins with a letter,
    holds no line terminator, and is an end piece of the cell's text when
    the cell holds something; run on its own result, [extractKA] gives it
    back. *)
Theorem extractKA_shape (siteId : JsVal) :
  let KA := extractKA siteId in
  (KA = "" \/ starts_with_letter KA = true)
  /\ no_line_terminator KA = true
  /\ (truthy siteId = true -> exists p, ToString siteId = p +:+ KA)
  /\ extractKA (JString KA) = KA.
Proof.
  intros KA. subst KA.
  assert (Heq : extractKA siteId =
                if truthy siteId
                then from_first_letter (last_line (ToString siteId)) else "").
  { unfold extractKA. destruct (truthy siteId); [|reflexivity].
    apply match_letter_rest_last_line. }
  rewrite Heq. clear Heq. destruct (truthy siteId) eqn:Et.
  - destruct (last_line_shape (ToString siteId)) as [Hl [p Hp]].
    destruct (from_first_letter_shape (last_line (ToString siteId)))
      as [Hf [q Hq]].
    pose proof (from_first_letter_no_lt _ Hl) as Hn.
    split; [exact Hf|]. split; [exact Hn|]. split.
    + intros _. exists (p +:+ q). now rewrite str_app_assoc, <- Hq.
    + rewrite extractKA_no_line_terminator by exact Hn.
      destruct Hf as [-> | Hf]; [reflexivity|]. now apply from_first_letter_id.
  - split; [now left|]. split; [reflexivity|]. split; [discriminate|reflexivity].
Qed.

Lemma no_gt_split (s p : string) : p ∈ split ">" s -> no_gt p = true.
Proof.
  revert p. induction s as [|c s IH]; intros p; cbn [split].
  - now intros ->%list_elem_of_singleton.
  - destruct (Ascii.eqb c ">") eqn:E.
    + intros [->|Hp]%elem_of_cons; [reflexivity|now apply IH].
    + destruct (split ">" s) as [|q ps].
      * intros ->%list_elem_of_singleton. simpl. now rewrite E.
      * intros [->|Hp]%elem_of_cons.
        -- simpl. rewrite E. apply IH. now left.
        -- apply IH. now right.
Qed.

Lemma no_gt_trimStart (s : string) : no_gt s = true -> no_gt (trimStart s) = true.
Proof.
  induction s as [|c s IH]; simpl; [reflexivity|].
  intros H. destruct (isWhiteSpace c); [|exact H].
  apply andb_prop in H as [_ H]. now apply IH.
Qed.

Lemma no_gt_trimEnd (s : string) : no_gt s = true -> no_gt (trimEnd s) = true.
Proof.
  induction s as [|c s IH]; simpl; [reflexivity|].
  intros [Hc Hs]%andb_prop. specialize (IH Hs).
  destruct (trimEnd s) as [|d t].
  - destruct (isWhiteSpace c); [reflexivity|]. simpl. now rewrite Hc.
  - change (negb (Ascii.eqb c ">") && no_gt (String d t) = true).
    now rewrite Hc, IH.
Qed.

Lemma no_gt_trim (s : string) : no_gt s = true -> no_gt (trim s) = true.
Proof. intros H. unfold trim. now apply no_gt_trimEnd, no_gt_trimStart. Qed.

Lemma no_gt_replace_ws_word (w s : string) :
  no_gt s = true -> no_gt (replace_ws_word w s) = true.
Proof.
  induction s as [|c s IH]; [reflexivity|]. cbn [replace_ws_word].
  intros H. destruct (matches_ws_word w (String c s)); [reflexivity|].
  cbn [no_gt] in *. apply andb_prop in H as [Hc Hs]. now rewrite Hc, IH.
Qed.

(** A segment after [trim], the removal of the trailing word and [trim]
    again. *)
Lemma segment_clean (w : string) (parts : list string) (i : nat) :
  (forall p, p ∈ parts -> no_gt p = true) ->
  let f := trim (replace_ws_word w
                   match parts !! i with
                   | Some p => if truthy (JString p) then trim p else ""
                   | None => ""
                   end) in
  starts_ws f = false /\ ends_ws f = false /\ no_gt f = true.
Proof.
  intros Hparts f. subst f.
  split; [apply trim_Trimmed|]. split; [apply trim_Trimmed|].
  apply no_gt_trim, no_gt_replace_ws_word.
  destruct (parts !! i) as [p|] eqn:E; [|reflexivity].
  destruct (truthy (JString p)); [|reflexivity].
  apply no_gt_trim, Hparts. eapply list_elem_of_lookup_2, E.
Qed.

Lemma parseAncestry_clean (ancestry : JsVal) :
  clean_name (allotment (parseAncestry ancestry)) = true
  /\ clean_name (pasture (parseAncestry ancestry)) = true.
Proof.
  unfold parseAncestry, clean_name.
  destruct (truthy ancestry); cbn [negb]; [|now split].
  cbn zeta. cbn [allotment pasture].
  split.
  - destruct (segment_clean "Allotment" (split ">" (ToString ancestry)) 0)
      as (-> & -> & ->); [apply no_gt_split|reflexivity].
  - destruct (segment_clean "Pasture" (split ">" (ToString ancestry)) 1)
      as (-> & -> & ->); [apply no_gt_split|reflexivity].
Qed.

(** X3. Whatever the cell holds, the two names [parseAncestry] gives carry
    no white space at either end and no [>]. *)
Theorem parseAncestry_fields_clean (ancestry : JsVal) :
  let r := parseAncestry ancestry in
  (starts_ws (allotment r) = false /\ ends_ws (allotment r) = false
   /\ no_gt (allotment r) = true)
  /\ (starts_ws (pasture r) = false /\ ends_ws (pasture r) = false
      /\ no_gt (pasture r) = true).
Proof.
  unfold parseAncestry. destruct (truthy ancestry); cbn [negb].
  - cbn zeta. cbn [allotment pasture].
    split; apply segment_clean; intros p; apply no_gt_split.
  - repeat split.
Qed.

Lemma digits_in_range (n : nat) (f : Z -> string) (lo len z : Z) :
  forallb (fun k => digits_n n (f (lo + Z.of_nat k))) (seq 0 (Z.to_nat len))
  = true ->
  lo <= z < lo + len -> digits_n n (f z) = true.
Proof.
  intros Hall Hz. rewrite forallb_forall in Hall.
  specialize (Hall (Z.to_nat (z - lo))).
  replace (lo + Z.of_nat (Z.to_nat (z - lo))) with z in Hall by lia.
  apply Hall, in_seq. lia.
Qed.

(** X4. For a valid date whose year has four digits, [normalizeDate] gives
    ten characters of the shape YYYY-MM-DD: four digits, a hyphen, two
    digits, a hyphen, two digits. *)
Theorem normalizeDate_iso (d : JsDate) :
  isNaN (timeValue d) = false ->
  1000 <= getFullYear d <= 9999 ->
  0 <= getMonth d <= 11 ->
  1 <= getDate d <= 31 ->
  is_iso_date (normalizeDate (JDateObj d)) = true.
Proof.
  intros Hv Hy Hm Hd. unfold normalizeDate. rewrite Hv. cbn [negb].
  assert (HY : digits_n 4 (String_of_Z (getFullYear d)) = true).
  { apply (digits_in_range 4 String_of_Z 1000 9000); [now vm_compute|lia]. }
  assert (HM : digits_n 2 (padStart2 (String_of_Z (getMonth d + 1))) = true).
  { apply (digits_in_range 2 (fun z => padStart2 (String_of_Z z)) 1 12);
      [now vm_compute|lia]. }
  assert (HD : digits_n 2 (padStart2 (String_of_Z (getDate d))) = true).
  { apply (digits_in_range 2 (fun z => padStart2 (String_of_Z z)) 1 31);
      [now vm_compute|lia]. }
  cbv zeta.
  destruct (String_of_Z (getFullYear d)) as [|y1 [|y2 [|y3 [|y4 [|? ?]]]]];
    try discriminate HY.
  destruct (padStart2 (String_of_Z (getMonth d + 1))) as [|m1 [|m2 [|? ?]]];
    try discriminate HM.
  destruct (padStart2 (String_of_Z (getDate d))) as [|d1 [|d2 [|? ?]]];
    try discriminate HD.
  unfold digits_n in HY, HM, HD. simpl in HY, HM, HD.
  rewrite !andb_true_r in HY, HM, HD.
  apply andb_prop in HM as [Hm1 Hm2]. apply andb_prop in HD as [Hd1 Hd2].
  apply andb_prop in HY as [Hy1 HY]. apply andb_prop in HY as [Hy2 HY].
  apply andb_prop in HY as [Hy3 Hy4].
  change (isDigit y1 && isDigit y2 && isDigit y3 && isDigit y4 && true
          && isDigit m1 && isDigit m2 && true && isDigit d1 && isDigit d2 = true).
  now rewrite Hy1, Hy2, Hy3, Hy4, Hm1, Hm2, Hd1, Hd2.
Qed.

(** ** The template builder *)

Lemma template_fold_covered (l' : list CY.row)
  (st : list Template.row * gset string) :
  (forall r', r' ∈ l' -> usable r' = true -> key_of r' ∈ st.2) ->
  fold_left template_step l' st = st.
Proof.
  induction l' as [|r l' IH]; intros Hcov; [reflexivity|].
  cbn [fold_left].
  assert (Hstep : template_step st r = st).
  { destruct (usable r) eqn:E.
    - apply template_step_seen; [exact E|]. apply Hcov; [now left|exact E].
    - now apply template_step_skip. }
  rewrite Hstep. apply IH. intros r' Hr'. apply Hcov. now right.
Qed.

(** X5. Yield rows added after others change nothing in the template when
    each of them that has a date and a unit code repeats the key of an
    earlier such row: loading the same export a second time leaves the
    template as it was. *)
Theorem template_covered_rows (l l' : list CY.row) :
  (forall r', r' ∈ l' -> usable r' = true ->
     exists r, r ∈ l /\ usable r = true /\ key_of r = key_of r') ->
  makeProductionTemplateRows (l ++ l') = makeProductionTemplateRows l.
Proof.
  intros Hcov. unfold makeProductionTemplateRows.
  rewrite fold_left_app. rewrite template_fold_covered; [reflexivity|].
  intros r' Hr' Hu. apply (proj1 (template_loop_spec l)). now apply Hcov.
Qed.

Lemma template_fold_length (l : list CY.row)
  (st : list Template.row * gset string) :
  List.length st.1 = (3 * size st.2)%nat ->
  let st' := fold_left template_step l st in
  List.length st'.1 = (3 * size st'.2)%nat.
Proof.
  revert st. induction l as [|r l IH]; intros [out seen] Hst; [exact Hst|].
  cbn [fold_left]. apply IH.
  destruct (usable r) eqn:E; [|now rewrite template_step_skip].
  rewrite template_step_usable by exact E.
  destruct (decide (key_of r ∈ seen)) as [Hin|Hout]; [exact Hst|].
  cbn [fst snd] in *. rewrite length_app, size_union
    by (intros k Hk ->%elem_of_singleton; contradiction).
  rewrite size_singleton. unfold template_rows_of, BAG_NUMBERS.
  rewrite length_map. cbn [List.length]. lia.
Qed.

(** X6. The template has three lines for each distinct key among the yield
    rows that have a date and a unit code, and no other line. *)
Theorem template_length (cy : list CY.row) :
  List.length (makeProductionTemplateRows cy) =
  (3 * size (list_to_set (key_of <$> filter (fun r => usable r = true) cy)
             : gset string))%nat.
Proof.
  unfold makeProductionTemplateRows. rewrite Array_sort_perm.
  pose proof (template_fold_length cy ([], ∅)) as Hlen. cbv zeta in Hlen.
  rewrite Hlen by reflexivity. do 2 f_equal.
  apply set_eq. intros k.
  rewrite (proj1 (template_loop_spec cy) k).
  rewrite elem_of_list_to_set, list_elem_of_fmap.
  split.
  - intros (r & Hr & Hu & <-). exists r. split; [reflexivity|].
    apply list_elem_of_filter. now split.
  - intros (r & -> & [Hu Hr]%list_elem_of_filter). now exists r.
Qed.

Lemma sort_insert_filter {A} (cmp : A -> A -> Z) (P : A -> Prop)
  `{!forall x, Decision (P x)} (x : A) (l : list A) :
  (forall y, y ∈ l -> P x -> P y -> cmp x y <= 0) ->
  filter P (sort_insert cmp x l) = filter P (x :: l).
Proof.
  induction l as [|y l IH]; intros Hle; [reflexivity|].
  cbn [sort_insert]. destruct (cmp x y <=? 0) eqn:E; [reflexivity|].
  apply Z.leb_gt in E.
  assert (Hxy : ~ (P x /\ P y)).
  { intros [Hx Hy]. assert (y ∈ y :: l) as Hin by now left.
    pose proof (Hle y Hin Hx Hy). lia. }
  rewrite (filter_cons P y), IH by (intros z Hz; apply Hle; now right).
  rewrite !(filter_cons P x), (filter_cons P y).
  destruct (decide (P y)) as [Hy|Hy], (decide (P x)) as [Hx|Hx];
    try reflexivity. destruct Hxy. now split.
Qed.

Lemma Array_sort_filter {A} (cmp : A -> A -> Z) (P : A -> Prop)
  `{!forall x, Decision (P x)} (l : list A) :
  (forall x y, x ∈ l -> y ∈ l -> P x -> P y -> cmp x y <= 0) ->
  filter P (Array_sort cmp l) = filter P l.
Proof.
  induction l as [|x l IH]; intros Hle; [reflexivity|].
  unfold Array_sort. cbn [foldr]. fold (Array_sort cmp l).
  rewrite sort_insert_filter.
  - rewrite !(filter_cons P x), IH; [reflexivity|].
    intros a b Ha Hb. apply Hle; now right.
  - intros y Hy%Array_sort_elem_of. apply Hle; [now left|now right].
Qed.

Lemma filter_none {A} (P : A -> Prop) `{!forall x, Decision (P x)} (l : list A) :
  (forall x, x ∈ l -> ~ P x) -> filter P l = [].
Proof.
  induction l as [|x l IH]; intros Hn; [reflexivity|].
  rewrite filter_cons, decide_False by (apply Hn; now left).
  apply IH. intros y Hy. apply Hn. now right.
Qed.

Lemma filter_all {A} (P : A -> Prop) `{!forall x, Decision (P x)} (l : list A) :
  (forall x, x ∈ l -> P x) -> filter P l = l.
Proof.
  induction l as [|x l IH]; intros Ha; [reflexivity|].
  rewrite filter_cons, decide_True by (apply Ha; now left).
  f_equal. apply IH. intros y Hy. apply Ha. now right.
Qed.

Lemma templateFields_key (t u : Template.row) :
  templateFields u = templateFields t -> template_key u = template_key t.
Proof. unfold templateFields, template_key. now intros [= -> -> -> ->]. Qed.

Lemma template_rows_of_fields (r : CY.row) (t : Template.row) :
  t ∈ template_rows_of r ->
  templateFields t = (CY.ALLOTMENT r, CY.PASTURE r, CY.DATE r, CY.KA r).
Proof.
  unfold template_rows_of. intros (bag & -> & _)%list_elem_of_fmap. reflexivity.
Qed.

(** The lines pushed for one set of four fields are its three, in the
    order of [BAG_NUMBERS]. *)
Lemma template_fold_bags (l : list CY.row)
  (st : list Template.row * gset string) :
  let Inv (st : list Template.row * gset string) :=
    forall t, t ∈ st.1 ->
      template_key t ∈ st.2
      /\ filter (fun u => templateFields u = templateFields t) st.1 =
         map (fun bag => Template.mk (Template.DATE t) (Template.ALLOTMENT t)
                           (Template.PASTURE t) (Template.KA t) bag "" "" "" "")
             BAG_NUMBERS in
  Inv st -> Inv (fold_left template_step l st).
Proof.
  intros Inv. revert st. induction l as [|r l IH]; intros [out seen] Hst;
    [exact Hst|].
  cbn [fold_left]. apply IH.
  destruct (usable r) eqn:E; [|now rewrite template_step_skip].
  rewrite template_step_usable by exact E.
  destruct (decide (key_of r ∈ seen)) as [Hin|Hout]; [exact Hst|].
  unfold Inv in Hst |- *. clear IH Inv.
  intros t. cbn [fst snd] in *. rewrite filter_app.
  intros [Ht|Ht]%elem_of_app.
  - destruct (Hst t Ht) as [Hk Hf]. split; [apply elem_of_union; now left|].
    rewrite Hf, filter_none; [now rewrite app_nil_r|].
    intros u Hu Heq. apply Hout.
    rewrite <- (template_rows_of_key r u Hu).
    now rewrite (templateFields_key t u Heq).
  - split.
    { rewrite (template_rows_of_key r t Ht). apply elem_of_union; right.
      now apply elem_of_singleton. }
    rewrite filter_none, filter_all.
    + unfold template_rows_of in *.
      apply list_elem_of_fmap in Ht as (bag & -> & _). reflexivity.
    + intros u Hu. now rewrite (template_rows_of_fields r u),
        (template_rows_of_fields r t).
    + intros u Hu Heq. apply Hout.
      rewrite <- (template_rows_of_key r t Ht).
      rewrite <- (templateFields_key t u Heq). now apply Hst.
Qed.

Lemma field_values_elem (cy : list CY.row) (r : CY.row) :
  r ∈ cy ->
  fields_in (field_values cy)
    (CY.ALLOTMENT r, CY.PASTURE r, CY.DATE r, CY.KA r).
Proof.
  intros Hr.
  assert (Hin : forall s,
            s ∈ [CY.ALLOTMENT r; CY.PASTURE r; CY.DATE r; CY.KA r] ->
            s ∈ field_values cy).
  { intros s Hs. unfold field_values. apply list_elem_of_In, in_flat_map.
    exists r. split; now apply list_elem_of_In. }
  repeat split; apply Hin; repeat constructor.
Qed.

Lemma template_fields_known (cy : list CY.row) :
  Forall (fun t => fields_in (field_values cy) (templateFields t))
         (fold_left template_step cy ([], ∅)).1.
Proof.
  apply Forall_forall. intros t Ht.
  destruct (template_loop_spec cy) as (_ & Hout & _).
  destruct (Hout t Ht) as (_ & r & Hr & _ & Htr).
  rewrite (template_rows_of_fields r t Htr). now apply field_values_elem.
Qed.

(** X7. Where the comparison of the host orders the field values of the
    yield rows and tells them apart, so that the comparator of the sort is
    consistent and the standard fixes the sorted order, the lines of the
    sorted template that share the four fields of one of its lines are that
    combination's three lines in the order of the bag numbers 1, 3, 5: the
    sort keeps the order in which they were pushed. *)
Theorem template_bag_order (cy : list CY.row) (t : Template.row) :
  Collates (field_values cy) ->
  t ∈ makeProductionTemplateRows cy ->
  filter (fun u => templateFields u = templateFields t)
         (makeProductionTemplateRows cy) =
  map (fun bag => Template.mk (Template.DATE t) (Template.ALLOTMENT t)
                    (Template.PASTURE t) (Template.KA t) bag "" "" "" "")
      BAG_NUMBERS.
Proof.
  intros Hcol. unfold makeProductionTemplateRows.
  intros Ht%Array_sort_elem_of. rewrite Array_sort_filter.
  - apply (template_fold_bags cy ([], ∅)); [|exact Ht].
    intros u Hu. now apply elem_of_nil in Hu.
  - intros x y _ _ Hx Hy. rewrite Hx, Hy.
    pose proof (template_fields_known cy) as Hknown.
    rewrite Forall_forall in Hknown. specialize (Hknown t Ht).
    destruct (templateFields t) as [[[a b] c] d]. unfold compareRows.
    rewrite !String.eqb_refl. cbn [negb].
    destruct Hknown as (_ & _ & _ & Hd).
    apply Z.eq_le_incl. now apply (proj1 Hcol d d Hd Hd).
Qed.

(** ** The production aggregator *)

Lemma fold_left_filter_inert {A S} (f : S -> A -> S) (P : A -> bool)
  (l : list A) (s : S) :
  (forall s a, P a = false -> f s a = s) ->
  fold_left f (filter (fun a => P a = true) l) s = fold_left f l s.
Proof.
  intros Hskip. revert s. induction l as [|a l IH]; intros s; [reflexivity|].
  rewrite filter_cons. cbn [fold_left]. destruct (P a) eqn:E.
  - rewrite decide_True by reflexivity. cbn [fold_left]. apply IH.
  - rewrite decide_False by discriminate. rewrite (Hskip s a E). apply IH.
Qed.

Lemma slopes_step_skip (perKA : gmap string Stats.t) (r : Cal.row) :
  cal_eligible r = false -> slopes_step perKA r = perKA.
Proof.
  unfold cal_eligible, slopes_step. rewrite js_or_same. cbv zeta.
  destruct (truthy (Cal.KA r)), (Number_isFinite (asNumber (Cal.BAG r))),
    (Number_isFinite (asNumber (Cal.NET_WT r))); simpl;
    (reflexivity || discriminate).
Qed.

(** X8. The rows the two computations skip do not count at all: the result
    for the yield rows and the calibration rows is the result for the yield
    rows that have a unit code, a date and a finite yield value, and the
    calibration rows that have a unit code, a finite bag number and a
    finite net weight. *)
Theorem computeProductionFromCY_eligible_only (cy : list CY.row)
  (prod : list Cal.row) :
  computeProductionFromCY (filter (fun r => eligible r = true) cy)
                          (filter (fun r => cal_eligible r = true) prod)
  = computeProductionFromCY cy prod.
Proof.
  unfold computeProductionFromCY, computeSlopesByKA.
  rewrite (fold_left_filter_inert slopes_step cal_eligible)
    by (intros; now apply slopes_step_skip).
  rewrite (fold_left_filter_inert groups_step eligible)
    by (intros; now apply groups_step_skip).
  reflexivity.
Qed.

Lemma group_record_first (k : string) (cy : list CY.row) (g : Group.t) :
  group_record (members k cy) = Some g ->
  exists r, r ∈ cy /\ eligible r = true /\ key_of r = k
            /\ groupFields g
               = (CY.ALLOTMENT r, CY.PASTURE r, CY.DATE r, CY.KA r).
Proof.
  unfold group_record. destruct (members k cy) as [|r m] eqn:E; [discriminate|].
  intros [= <-]. exists r.
  assert (Hr : r ∈ members k cy) by (rewrite E; now left).
  apply members_elem_of in Hr as (Hr & He & Hk). now repeat split.
Qed.

Lemma groups_fields_NoDup (cy : list CY.row) :
  NoDup (groupFields <$> Object_values (fold_left groups_step cy [])).
Proof.
  pose proof (groups_keys cy) as Hnd.
  set (groups := fold_left groups_step cy []) in *.
  set (key := fun f : string * string * string * string =>
                rowKey f.1.2 f.1.1.1 f.1.1.2 f.2).
  apply (NoDup_fmap_1 key).
  replace (key <$> (groupFields <$> Object_values groups)) with groups.*1;
    [exact Hnd|].
  unfold Object_values. rewrite <- !list_fmap_compose.
  apply list_fmap_ext. intros i [k g] Hi. cbn.
  assert (Hg : obj_get k groups = Some g).
  { apply obj_get_elem_of; [exact Hnd|]. eapply list_elem_of_lookup_2, Hi. }
  unfold groups in Hg. rewrite groups_spec in Hg.
  apply group_record_first in Hg as (r & _ & _ & <- & Hf).
  unfold key. rewrite Hf. reflexivity.
Qed.

Lemma production_fold_rows (slopes : gmap string float) (gs : list Group.t) :
  Forall (fun g => Group.count g <> 0) gs ->
  forall out miss,
    (fold_left (production_step slopes) gs (out, miss)).1
    = out ++ omap (emitted slopes) gs.
Proof.
  induction 1 as [|g gs Hg _ IH]; intros out miss; cbn [fold_left].
  - now rewrite app_nil_r.
  - rewrite production_step_eq by exact Hg. cbn [omap list_omap].
    assert (He : emitted slopes g =
                 if finite_slope slopes (Group.KA g)
                 then Some (production_row g
                              (default 0%float (slopes !! Group.KA g)))
                 else None) by reflexivity.
    destruct (finite_slope slopes (Group.KA g)); rewrite He.
    + now rewrite IH, <- app_assoc.
    + apply IH.
Qed.

Lemma emitted_fields (slopes : gmap string float) (g : Group.t)
  (row : Production.row) :
  emitted slopes g = Some row -> productionFields row = groupFields g.
Proof.
  unfold emitted. destruct (finite_slope slopes (Group.KA g)); [|discriminate].
  now intros [= <-].
Qed.

Lemma omap_fields_NoDup (slopes : gmap string float) (gs : list Group.t) :
  NoDup (groupFields <$> gs) ->
  NoDup (productionFields <$> omap (emitted slopes) gs).
Proof.
  induction gs as [|g gs IH]; [constructor|].
  rewrite fmap_cons. intros [Hg Hnd]%NoDup_cons. cbn [omap list_omap].
  destruct (emitted slopes g) as [row|] eqn:E; [|now apply IH].
  rewrite fmap_cons. apply NoDup_cons. split; [|now apply IH].
  intros (row' & Hf & Hin)%list_elem_of_fmap. apply Hg.
  apply list_elem_of_omap in Hin as (g' & Hg' & E').
  apply list_elem_of_fmap. exists g'. split; [|exact Hg'].
  now rewrite <- (emitted_fields _ _ _ E), Hf, (emitted_fields _ _ _ E').
Qed.

(** X9. Every production row carries the four fields of a yield row that
    counts, whose unit code has a finite slope, and shows that slope
    rounded to 4 decimals; no two production rows share their four
    fields. *)
Theorem production_rows_sound (cy : list CY.row) (prod : list Cal.row) :
  let rows := Production.rows (computeProductionFromCY cy prod) in
  (forall row, row ∈ rows ->
     exists r s, r ∈ cy /\ eligible r = true
       /\ productionFields row
          = (CY.ALLOTMENT r, CY.PASTURE r, CY.DATE r, CY.KA r)
       /\ computeSlopesByKA prod !! CY.KA r = Some s
       /\ Number_isFinite s = true
       /\ Production.slope_g_per_bag row = round (JNumber s) 4)
  /\ NoDup (productionFields <$> rows).
Proof.
  split.
  - intros row (k & g & s & Hg & Hs & Hfin & ->)%rows_spec.
    apply group_record_first in Hg as (r & Hr & He & _ & [= Ha Hp Hd Hk]).
    exists r, s. rewrite <- Hk. repeat split; try assumption.
    unfold productionFields, production_row. cbn. congruence.
  - rewrite computeProductionFromCY_rows, Array_sort_perm.
    rewrite production_fold_rows by apply groups_nonzero.
    apply omap_fields_NoDup, groups_fields_NoDup.
Qed.

Lemma Set_add_NoDup (k : string) (s : list string) :
  NoDup s -> NoDup (Set_add k s).
Proof.
  intros Hs. unfold Set_add. destruct (decide (k ∈ s)) as [Hin|Hout];
    [exact Hs|].
  apply NoDup_app. split; [exact Hs|]. split; [|apply NoDup_singleton].
  now intros x Hx ->%list_elem_of_singleton.
Qed.

Lemma Set_add_length (k : string) (s : list string) :
  (List.length (Set_add k s) <= S (List.length s))%nat.
Proof.
  unfold Set_add. destruct (decide (k ∈ s)); [lia|].
  rewrite length_app. cbn [List.length]. lia.
Qed.

Lemma production_step_cases (slopes : gmap string float)
  (out : list Production.row) (miss : list string) (g : Group.t) :
  production_step slopes (out, miss) g = (out, miss)
  \/ production_step slopes (out, miss) g = (out, Set_add (Group.KA g) miss)
  \/ exists row, production_step slopes (out, miss) g = (out ++ [row], miss).
Proof.
  unfold production_step. destruct (Group.count g =? 0); [now left|].
  destruct (slopes !! Group.KA g) as [slope|]; [|right; now left].
  destruct (Number_isFinite slope); cbn [negb].
  - right; right. eexists. reflexivity.
  - right; now left.
Qed.

Lemma production_fold_missing_NoDup (slopes : gmap string float)
  (gs : list Group.t) (out : list Production.row) (miss : list string) :
  NoDup miss -> NoDup (fold_left (production_step slopes) gs (out, miss)).2.
Proof.
  revert out miss. induction gs as [|g gs IH]; intros out miss Hnd; [exact Hnd|].
  cbn [fold_left].
  destruct (production_step_cases slopes out miss g) as [-> | [-> | [row ->]]];
    apply IH; [exact Hnd| |exact Hnd]. now apply Set_add_NoDup.
Qed.

Lemma production_fold_length (slopes : gmap string float)
  (gs : list Group.t) (out : list Production.row) (miss : list string) :
  let st := fold_left (production_step slopes) gs (out, miss) in
  (List.length st.1 + List.length st.2
   <= List.length out + List.length miss + List.length gs)%nat.
Proof.
  revert out miss. induction gs as [|g gs IH]; intros out miss;
    cbn [fold_left List.length fst snd]; [lia|].
  destruct (production_step_cases slopes out miss g) as [-> | [-> | [row ->]]].
  - specialize (IH out miss). cbv zeta in IH. lia.
  - specialize (IH out (Set_add (Group.KA g) miss)). cbv zeta in IH.
    pose proof (Set_add_length (Group.KA g) miss). lia.
  - specialize (IH (out ++ [row]) miss). cbv zeta in IH.
    rewrite length_app in IH. cbn [List.length] in IH. lia.
Qed.

Lemma obj_update_length {V} (f : V -> V) (k : string) (o : list (string * V)) :
  List.length (obj_update f k o) = List.length o.
Proof.
  rewrite <- (length_fmap fst (obj_update f k o)), obj_update_keys.
  apply length_fmap.
Qed.

Lemma groups_fold_length (cy : list CY.row) (groups : list (string * Group.t)) :
  (List.length (fold_left groups_step cy groups)
   <= List.length groups + List.length (filter (fun r => eligible r = true) cy))%nat.
Proof.
  revert groups. induction cy as [|r cy IH]; intros groups;
    cbn [fold_left]; [cbn; lia|].
  rewrite filter_cons. specialize (IH (groups_step groups r)).
  destruct (eligible r) eqn:E.
  - rewrite decide_True by reflexivity. cbn [List.length].
    rewrite groups_step_count in IH |- * by exact E.
    rewrite obj_update_length in IH.
    destruct (obj_get (key_of r) groups); [lia|].
    unfold obj_add in IH |- *. rewrite length_app in IH.
    cbn [List.length] in IH. lia.
  - rewrite decide_False by discriminate.
    rewrite groups_step_skip in IH |- * by exact E. exact IH.
Qed.

(** X10. The list of unit codes without calibration names no unit twice;
    each unit it names is the unit code of a yield row that counts, has no
    finite slope, and is the unit code of no production row. *)
Theorem missingKAs_sound (cy : list CY.row) (prod : list Cal.row) :
  let result := computeProductionFromCY cy prod in
  NoDup (Production.missingKAs result)
  /\ forall U, U ∈ Production.missingKAs result ->
       (exists r, r ∈ cy /\ eligible r = true /\ CY.KA r = U)
       /\ finite_slope (computeSlopesByKA prod) U = false
       /\ forall row, row ∈ Production.rows result -> Production.KA row <> U.
Proof.
  split.
  - rewrite computeProductionFromCY_missingKAs.
    apply production_fold_missing_NoDup. constructor.
  - intros U (k & g & Hg & HU & Hfin)%missingKAs_spec.
    apply group_record_first in Hg as (r & Hr & He & _ & [= _ _ _ Hk]).
    split; [exists r; repeat split; congruence|]. split; [exact Hfin|].
    intros row (k' & g' & s & _ & Hs & Hs' & ->)%rows_spec HU'.
    cbn in HU'. unfold finite_slope in Hfin.
    rewrite <- HU', Hs, Hs' in Hfin. discriminate.
Qed.

(** X11. There are never more production rows and unit codes reported
    missing, taken together, than yield rows that count. *)
Theorem production_size_bound (cy : list CY.row) (prod : list Cal.row) :
  let result := computeProductionFromCY cy prod in
  (List.length (Production.rows result)
   + List.length (Production.missingKAs result)
   <= List.length (filter (fun r => eligible r = true) cy))%nat.
Proof.
  cbv zeta.
  rewrite computeProductionFromCY_rows, computeProductionFromCY_missingKAs,
    Array_sort_perm.
  pose proof (production_fold_length (computeSlopesByKA prod)
                (Object_values (fold_left groups_step cy [])) [] []) as H1.
  pose proof (groups_fold_length cy []) as H2.
  cbv zeta in H1. unfold Object_values in H1 |- *. rewrite length_fmap in H1.
  cbn [List.length] in H1, H2. lia.
Qed.

(** ** The handlers *)

Lemma uploadRaw_loop_fails (files : list (ExcelFile Raw.row))
  (allCY : list CY.row) :
  None ∈ files -> uploadRaw_loop files allCY = None.
Proof.
  revert allCY. induction files as [|[wb|] files IH]; intros allCY Hin.
  - now apply elem_of_nil in Hin.
  - apply elem_of_cons in Hin as [?|Hin]; [discriminate|].
    cbn [uploadRaw_loop]. destruct (obj_get _ wb); now apply IH.
  - reflexivity.
Qed.

Lemma uploadProduction_loop_fails (files : list (ExcelFile Cal.row))
  (allProd : list Cal.row) :
  None ∈ files -> uploadProduction_loop files allProd = None.
Proof.
  revert allProd. induction files as [|[wb|] files IH]; intros allProd Hin.
  - now apply elem_of_nil in Hin.
  - apply elem_of_cons in Hin as [?|Hin]; [discriminate|].
    cbn [uploadProduction_loop]. now apply IH.
  - reflexivity.
Qed.

Lemma uploadRaw_loop_reads (files : list (ExcelFile Raw.row))
  (allCY : list CY.row) :
  Forall is_Some files ->
  uploadRaw_loop files allCY = Some (allCY ++ flat_map rawRowsOf files).
Proof.
  intros Hall. revert allCY.
  induction Hall as [|file files [wb ->] _ IH]; intros allCY.
  - cbn. now rewrite app_nil_r.
  - cbn [uploadRaw_loop flat_map rawRowsOf].
    destruct (obj_get _ wb) as [cyData|]; rewrite IH; [|reflexivity].
    now rewrite <- app_assoc.
Qed.

Lemma uploadProduction_loop_reads (files : list (ExcelFile Cal.row))
  (allProd : list Cal.row) :
  Forall is_Some files ->
  uploadProduction_loop files allProd
  = Some (allProd ++ flat_map prodRowsOf files).
Proof.
  intros Hall. revert allProd.
  induction Hall as [|file files [wb ->] _ IH]; intros allProd.
  - cbn. now rewrite app_nil_r.
  - cbn [uploadProduction_loop flat_map prodRowsOf].
    now rewrite IH, <- app_assoc.
Qed.

Lemma handleUploadRaw_reads (files : list (ExcelFile Raw.row)) (st : App.state) :
  Forall is_Some files -> files <> [] ->
  handleUploadRaw files st =
  let allCY := App.cyRows st ++ flat_map rawRowsOf files in
  App.mk allCY (App.prodRows st)
    ("Loaded " +:+ String_of_length allCY +:+ " Comparative Yield rows.").
Proof.
  intros Hall Hne. unfold handleUploadRaw.
  rewrite uploadRaw_loop_reads by exact Hall. now destruct files.
Qed.

Lemma handleUploadProduction_reads (files : list (ExcelFile Cal.row))
  (st : App.state) :
  Forall is_Some files -> files <> [] ->
  handleUploadProduction files st =
  let allProd := App.prodRows st ++ flat_map prodRowsOf files in
  App.mk (App.cyRows st) allProd
    ("Loaded " +:+ String_of_length allProd +:+ " production rows.").
Proof.
  intros Hall Hne. unfold handleUploadProduction.
  rewrite uploadProduction_loop_reads by exact Hall. now destruct files.
Qed.

(** X12. An upload in which one file cannot be read adds nothing, whatever
    the files before it held: both collections stay as they were and the
    status reports the error. *)
Theorem upload_failure_keeps_rows (st : App.state) :
  (forall files, None ∈ files ->
     handleUploadRaw files st =
     App.mk (App.cyRows st) (App.prodRows st)
       "Error reading RAW files. Check console for details.")
  /\ (forall files, None ∈ files ->
        handleUploadProduction files st =
        App.mk (App.cyRows st) (App.prodRows st)
          "Error reading production files. Check console for details.").
Proof.
  split; intros files Hin.
  - unfold handleUploadRaw. rewrite uploadRaw_loop_fails by exact Hin.
    destruct files; [now apply elem_of_nil in Hin|reflexivity].
  - unfold handleUploadProduction.
    rewrite uploadProduction_loop_fails by exact Hin.
    destruct files; [now apply elem_of_nil in Hin|reflexivity].
Qed.

(** X13. An upload of yield files that can all be read appends, after the
    rows already held and in the order of the files, one row for each row
    of each file's "Comparative Yield" sheet, and nothing for a file
    without that sheet; the row has the date normalised, the two names of
    the ancestry, the unit code of the site and the yield value as it is
    in the sheet. The calibration rows are not touched and the status
    gives the new number of rows. *)
Theorem handleUploadRaw_appends (files : list (ExcelFile Raw.row))
  (st : App.state) :
  Forall is_Some files -> files <> [] ->
  handleUploadRaw files st =
  (let allCY :=
     App.cyRows st ++
     flat_map (fun file =>
                 match file ≫= obj_get "Comparative Yield" with
                 | Some cyData =>
                     map (fun row =>
                            let ancestry := parseAncestry (Raw.Ancestry row) in
                            CY.mk (normalizeDate (Raw.Date row))
                                  (allotment ancestry) (pasture ancestry)
                                  (extractKA (Raw.SiteID row)) (Raw.nValue row))
                         cyData
                 | None => []
                 end) files in
   App.mk allCY (App.prodRows st)
     ("Loaded " +:+ String_of_length allCY +:+ " Comparative Yield rows.")).
Proof.
  intros Hall Hne. rewrite handleUploadRaw_reads by assumption.
  cbv zeta.
  assert (Heq : forall l : list (ExcelFile Raw.row),
            flat_map rawRowsOf l =
            flat_map (fun file =>
                 match file ≫= obj_get "Comparative Yield" with
                 | Some cyData =>
                     map (fun row =>
                            CY.mk (normalizeDate (Raw.Date row))
                                  (allotment (parseAncestry (Raw.Ancestry row)))
                                  (pasture (parseAncestry (Raw.Ancestry row)))
                                  (extractKA (Raw.SiteID row)) (Raw.nValue row))
                         cyData
                 | None => []
                 end) l).
  { induction l as [|[wb|] l IH]; cbn [flat_map]; [reflexivity| |].
    - rewrite IH. f_equal. cbn. destruct (obj_get _ wb); [|reflexivity].
      apply map_ext. intros row. unfold processRawRow. cbv zeta.
      now rewrite !js_or_same.
    - now rewrite IH. }
  now rewrite Heq.
Qed.

Lemma processProductionRow_id (row : Cal.row) : processProductionRow row = row.
Proof. unfold processProductionRow. rewrite js_or_same. now destruct row. Qed.

(** X14. An upload of calibration files that can all be read appends the
    rows of each file's first sheet, in the order of the files, with the
    unit code, bag number and net weight they have in the sheet: taking
    [KA] from [row.KA || row["KA"]] changes no row. The yield rows are not
    touched. *)
Theorem handleUploadProduction_appends (files : list (ExcelFile Cal.row))
  (st : App.state) :
  Forall is_Some files -> files <> [] ->
  handleUploadProduction files st =
  (let allProd :=
     App.prodRows st ++
     flat_map (fun file => default [] (firstSheet <$> file)) files in
   App.mk (App.cyRows st) allProd
     ("Loaded " +:+ String_of_length allProd +:+ " production rows.")).
Proof.
  intros Hall Hne. rewrite handleUploadProduction_reads by assumption.
  cbv zeta.
  assert (Heq : forall l : list (ExcelFile Cal.row),
            flat_map prodRowsOf l =
            flat_map (fun file => default [] (firstSheet <$> file)) l).
  { induction l as [|[wb|] l IH]; cbn [flat_map]; [reflexivity| |].
    - rewrite IH. f_equal. cbn.
      rewrite <- (map_id (firstSheet wb)) at 2.
      apply map_ext, processProductionRow_id.
    - now rewrite IH. }
  now rewrite Heq.
Qed.

(** X15. Where every file can be read, uploading a batch of yield files in
    two parts, one after the other, leaves the state that uploading the
    whole batch at once leaves. *)
Theorem handleUploadRaw_batches (files1 files2 : list (ExcelFile Raw.row))
  (st : App.state) :
  Forall is_Some (files1 ++ files2) ->
  handleUploadRaw files2 (handleUploadRaw files1 st)
  = handleUploadRaw (files1 ++ files2) st.
Proof.
  intros [H1 H2]%Forall_app.
  destruct (decide (files1 = [])) as [->|Hne1]; [reflexivity|].
  destruct (decide (files2 = [])) as [->|Hne2]; [now rewrite app_nil_r|].
  rewrite (handleUploadRaw_reads files1) by assumption.
  rewrite (handleUploadRaw_reads files2) by assumption.
  rewrite (handleUploadRaw_reads (files1 ++ files2)).
  - cbn. now rewrite flat_map_app, <- !app_assoc.
  - now apply Forall_app.
  - now destruct files1.
Qed.

Lemma uploadRaw_loop_Some (files : list (ExcelFile Raw.row))
  (allCY result : list CY.row) :
  uploadRaw_loop files allCY = Some result ->
  result = allCY ++ flat_map rawRowsOf files.
Proof.
  revert allCY. induction files as [|[wb|] files IH]; intros allCY;
    cbn [uploadRaw_loop flat_map rawRowsOf]; [|  |discriminate].
  - intros [= <-]. now rewrite app_nil_r.
  - destruct (obj_get _ wb) as [cyData|]; intros H; apply IH in H;
      subst result; [|reflexivity].
    now rewrite <- app_assoc.
Qed.

Lemma handleUploadRaw_rows (files : list (ExcelFile Raw.row)) (st : App.state) :
  App.prodRows (handleUploadRaw files st) = App.prodRows st
  /\ (App.cyRows (handleUploadRaw files st) = App.cyRows st
      \/ App.cyRows (handleUploadRaw files st)
         = App.cyRows st ++ flat_map rawRowsOf files).
Proof.
  unfold handleUploadRaw. destruct files as [|file files]; [now split; [|left]|].
  destruct (uploadRaw_loop (file :: files) (App.cyRows st)) as [allCY|] eqn:E.
  - split; [reflexivity|]. right. now apply uploadRaw_loop_Some in E.
  - now split; [|left].
Qed.

Lemma handleUploadProduction_cyRows (files : list (ExcelFile Cal.row))
  (st : App.state) :
  App.cyRows (handleUploadProduction files st) = App.cyRows st.
Proof.
  unfold handleUploadProduction. destruct files as [|file files]; [reflexivity|].
  now destruct (uploadProduction_loop (file :: files) (App.prodRows st)).
Qed.

Lemma handleExportTemplate_rows (st : App.state) :
  App.cyRows (handleExportTemplate st).1 = App.cyRows st
  /\ App.prodRows (handleExportTemplate st).1 = App.prodRows st.
Proof. unfold handleExportTemplate. now destruct (App.cyRows st). Qed.

Lemma handleExportProduction_rows (st : App.state) :
  App.cyRows (handleExportProduction st).1 = App.cyRows st
  /\ App.prodRows (handleExportProduction st).1 = App.prodRows st.
Proof.
  unfold handleExportProduction.
  destruct (App.cyRows st), (App.prodRows st); try (now split).
  destruct (Production.rows _); [now split|].
  now destruct (Production.missingKAs _).
Qed.

Lemma processRawRow_clean (row : Raw.row) :
  let r := processRawRow row in
  clean_KA (CY.KA r) = true /\ clean_name (CY.ALLOTMENT r) = true
  /\ clean_name (CY.PASTURE r) = true.
Proof.
  unfold processRawRow. cbv zeta. cbn [CY.KA CY.ALLOTMENT CY.PASTURE].
  split; [apply extractKA_clean|apply parseAncestry_clean].
Qed.

(** X16. Whatever the user uploads and exports, in whatever order, every
    yield row the component holds has a unit code that is empty or begins
    with a letter and holds no line terminator, and an allotment and a
    pasture with no white space at either end and no [>]. *)
Theorem stored_rows_clean (events : list Event) (r : CY.row) :
  r ∈ App.cyRows (run events) ->
  clean_KA (CY.KA r) = true /\ clean_name (CY.ALLOTMENT r) = true
  /\ clean_name (CY.PASTURE r) = true.
Proof.
  unfold run. revert r. induction events as [|e events IH] using rev_ind.
  - intros r Hr. now apply elem_of_nil in Hr.
  - intros r. rewrite fold_left_app. cbn [fold_left].
    set (st := fold_left handle events initialState) in *.
    destruct e as [files|files| |]; cbn [handle].
    + destruct (handleUploadRaw_rows files st) as [_ [-> | ->]]; [apply IH|].
      intros [Hr|Hr]%elem_of_app; [now apply IH|].
      apply list_elem_of_In, in_flat_map in Hr
        as ([wb|] & _ & Hr); [|contradiction].
      cbn [rawRowsOf] in Hr. destruct (obj_get _ wb); [|contradiction].
      apply in_map_iff in Hr as (row & <- & _). apply processRawRow_clean.
    + rewrite handleUploadProduction_cyRows. apply IH.
    + rewrite (proj1 (handleExportTemplate_rows st)). apply IH.
    + rewrite (proj1 (handleExportProduction_rows st)). apply IH.
Qed.

Lemma template_empty_iff (cy : list CY.row) :
  makeProductionTemplateRows cy = [] <-> forall r, r ∈ cy -> usable r = false.
Proof.
  unfold makeProductionTemplateRows.
  destruct (template_loop_spec cy) as (Hseen & Hout & _).
  pose proof (template_fold_length cy ([], ∅) eq_refl) as Hlen.
  cbv zeta in *.
  set (st := fold_left template_step cy ([], ∅)) in *.
  split.
  - intros Hnil r Hr. destruct (usable r) eqn:E; [|reflexivity].
    assert (Hk : key_of r ∈ st.2) by (apply Hseen; now exists r).
    assert (Hs : size st.2 <> 0%nat).
    { intros Hs%size_empty_inv. apply (Hs (key_of r)) in Hk.
      now apply elem_of_empty in Hk. }
    apply (f_equal List.length) in Hnil.
    rewrite Array_sort_perm in Hnil. cbn in Hnil. lia.
  - intros Hno. destruct st.1 as [|t out] eqn:E; [reflexivity|].
    destruct (Hout t) as (_ & r & Hr & Hu & _); [now left|].
    rewrite (Hno r Hr) in Hu. discriminate.
Qed.

Lemma template_nonempty (cy : list CY.row) (t : Template.row) :
  t ∈ makeProductionTemplateRows cy -> exists r, r ∈ cy /\ usable r = true.
Proof.
  unfold makeProductionTemplateRows. intros Ht%Array_sort_elem_of.
  destruct (template_loop_spec cy) as (_ & Hout & _).
  destruct (Hout t Ht) as (_ & r & Hr & Hu & _). now exists r.
Qed.

(** X17. The template export leaves both collections as they are. It
    writes the file "CY_ProductionTemplate.xlsx", with the rows of
    [makeProductionTemplateRows], exactly when some yield row held has a
    date and a unit code. When yield rows are held but none has both, no
    file is written, "Nothing to export." is alerted, and the status still
    reads "Exported template with 0 rows.". *)
Theorem handleExportTemplate_spec (st : App.state) :
  let st' := (handleExportTemplate st).1 in
  let download := (handleExportTemplate st).2 in
  App.cyRows st' = App.cyRows st /\ App.prodRows st' = App.prodRows st
  /\ (download = Some (WriteFile "CY_ProductionTemplate.xlsx" "ProductionTemplate"
                         (makeProductionTemplateRows (App.cyRows st)))
      <-> exists r, r ∈ App.cyRows st /\ usable r = true)
  /\ (App.cyRows st <> [] ->
      (forall r, r ∈ App.cyRows st -> usable r = false) ->
      download = Some (Alert "Nothing to export.")
      /\ App.status st' = "Exported template with 0 rows.").
Proof.
  cbv zeta. split; [apply handleExportTemplate_rows|].
  split; [apply handleExportTemplate_rows|].
  pose proof (template_empty_iff (App.cyRows st)) as Hempty.
  unfold handleExportTemplate.
  destruct (App.cyRows st) as [|r0 cy] eqn:Ecy.
  - split; [|now intros []]. cbn [snd]. split; [discriminate|].
    intros (r & Hr & _). now apply elem_of_nil in Hr.
  - cbv zeta. cbn [fst snd App.status].
    destruct (makeProductionTemplateRows (r0 :: cy)) as [|t rows] eqn:E.
    + split.
      * split; [discriminate|]. intros (r & Hr & Hu).
        rewrite (proj1 Hempty eq_refl r Hr) in Hu. discriminate.
      * intros _ _. split; reflexivity.
    + split.
      * split; [intros _|reflexivity].
        apply (template_nonempty (r0 :: cy) t). rewrite E. now left.
      * intros _ Hno. apply Hempty in Hno. discriminate.
Qed.

Lemma slopes_entry_row (prod : list Cal.row) (U : string) (s : float) :
  computeSlopesByKA prod !! U = Some s ->
  exists c, c ∈ prod /\ cal_eligible c = true /\ ToString (Cal.KA c) = U.
Proof.
  unfold computeSlopesByKA. rewrite lookup_omap, perKA_spec.
  destruct (inherited U); [discriminate|].
  unfold stats_of. destruct (cal_rows_of U prod) as [|c l] eqn:E; [discriminate|].
  intros _. exists c.
  assert (Hc : c ∈ cal_rows_of U prod) by (rewrite E; now left).
  apply list_elem_of_filter in Hc as [[He Hk] Hc]. now repeat split.
Qed.

(** X18. The production export leaves both collections as they are and
    never raises the "Nothing to export." alert. When it asks for a
    download, that is the file "CY_Production_lbs_per_acre.xlsx" with the
    rows of [computeProductionFromCY], and the collections hold a yield
    row that counts together with a calibration row for its unit code that
    has a finite bag number and a finite net weight. *)
Theorem handleExportProduction_spec (st : App.state) :
  let st' := (handleExportProduction st).1 in
  let download := (handleExportProduction st).2 in
  App.cyRows st' = App.cyRows st /\ App.prodRows st' = App.prodRows st
  /\ (forall message, download <> Some (Alert message))
  /\ (download <> None ->
      download = Some (WriteFile "CY_Production_lbs_per_acre.xlsx"
                         "Production_lbs_acre"
                         (Production.rows
                            (computeProductionFromCY (App.cyRows st)
                                                     (App.prodRows st))))
      /\ exists r c, r ∈ App.cyRows st /\ eligible r = true
                     /\ c ∈ App.prodRows st /\ cal_eligible c = true
                     /\ ToString (Cal.KA c) = CY.KA r).
Proof.
  cbv zeta. split; [apply handleExportProduction_rows|].
  split; [apply handleExportProduction_rows|].
  assert (Hpair : forall row,
            row ∈ Production.rows
                    (computeProductionFromCY (App.cyRows st) (App.prodRows st)) ->
            exists r c, r ∈ App.cyRows st /\ eligible r = true
                        /\ c ∈ App.prodRows st /\ cal_eligible c = true
                        /\ ToString (Cal.KA c) = CY.KA r).
  { intros row (k & g & s & Hg & Hs & _ & _)%rows_spec.
    apply group_record_first in Hg as (r & Hr & He & _ & [= _ _ _ Hk]).
    rewrite Hk in Hs. apply slopes_entry_row in Hs as (c & Hc & Hce & Hck).
    now exists r, c. }
  unfold handleExportProduction.
  destruct (App.cyRows st) as [|r0 cy]; [now split|].
  destruct (App.prodRows st) as [|c0 prod]; [now split|].
  cbv zeta.
  destruct (Production.rows (computeProductionFromCY (r0 :: cy) (c0 :: prod)))
    as [|row rows]; [now split|].
  specialize (Hpair row).
  assert (Hex : exists r c, r ∈ r0 :: cy /\ eligible r = true
                     /\ c ∈ c0 :: prod /\ cal_eligible c = true
                     /\ ToString (Cal.KA c) = CY.KA r)
    by (apply Hpair; now left).
  destruct (Production.missingKAs _); cbn [snd downloadXlsxFromJson];
    (split; [discriminate|]); intros _; (split; [reflexivity|exact Hex]).
Qed.

(** X19. Uploading the same readable yield files a second time does not
    change what the template export asks to download. *)
Theorem reupload_keeps_template (files : list (ExcelFile Raw.row))
  (st : App.state) :
  Forall is_Some files ->
  (handleExportTemplate (handleUploadRaw files (handleUploadRaw files st))).2
  = (handleExportTemplate (handleUploadRaw files st)).2.
Proof.
  intros Hall. destruct (decide (files = [])) as [->|Hne]; [reflexivity|].
  rewrite !(handleUploadRaw_reads files) by assumption.
  cbv zeta. cbn [App.cyRows App.prodRows].
  set (old := App.cyRows st). set (new := flat_map rawRowsOf files).
  assert (Hmake : makeProductionTemplateRows ((old ++ new) ++ new)
                  = makeProductionTemplateRows (old ++ new)).
  { unfold makeProductionTemplateRows. rewrite (fold_left_app _ (old ++ new)).
    rewrite template_fold_covered; [reflexivity|].
    intros r' Hr' Hu. apply (proj1 (template_loop_spec (old ++ new))).
    exists r'. repeat split; [|exact Hu]. apply elem_of_app. now right. }
  unfold handleExportTemplate. cbn [App.cyRows App.prodRows].
  rewrite Hmake.
  destruct (old ++ new) as [|x l] eqn:E.
  - apply app_eq_nil in E as [_ ->]. reflexivity.
  - reflexivity.
Qed.

(** X21. Every unit code that an export shows, on a line of the template,
    on a production row or in the list of units without calibration, is
    among the distinct unit codes the page counts for the yield rows. *)
Theorem exported_units_counted (cy : list CY.row) (prod : list Cal.row)
  (U : string) :
  (exists t, t ∈ makeProductionTemplateRows cy /\ Template.KA t = U)
  \/ (exists row, row ∈ Production.rows (computeProductionFromCY cy prod)
                  /\ Production.KA row = U)
  \/ U ∈ Production.missingKAs (computeProductionFromCY cy prod) ->
  U ∈ cyKAs cy.
Proof.
  assert (Hin : forall r, r ∈ cy -> truthy (JString (CY.KA r)) = true ->
                          CY.KA r ∈ cyKAs cy).
  { intros r Hr Ht. unfold cyKAs. apply elem_of_list_to_set, list_elem_of_filter.
    split; [exact Ht|]. apply list_elem_of_fmap. now exists r. }
  assert (Hel : forall r, eligible r = true -> truthy (JString (CY.KA r)) = true).
  { intros r He. unfold eligible in He.
    now apply andb_prop in He as [[? _]%andb_prop _]. }
  intros [(t & Ht & <-) | [(row & Hrow & <-) | Hmiss]].
  - unfold makeProductionTemplateRows in Ht. apply Array_sort_elem_of in Ht.
    destruct (template_loop_spec cy) as (_ & Hout & _).
    destruct (Hout t Ht) as (_ & r & Hr & Hu & Htr).
    apply template_rows_of_fields in Htr. injection Htr as _ _ _ ->.
    apply Hin; [exact Hr|]. unfold usable in Hu.
    now apply andb_prop in Hu as [_ ?].
  - apply rows_spec in Hrow as (k & g & s & Hg & _ & _ & ->).
    apply group_record_first in Hg as (r & Hr & He & _ & [= _ _ _ Hk]).
    cbn. rewrite Hk. apply Hin; [exact Hr|now apply Hel].
  - apply missingKAs_spec in Hmiss as (k & g & Hg & <- & _).
    apply group_record_first in Hg as (r & Hr & He & _ & [= _ _ _ Hk]).
    rewrite Hk. apply Hin; [exact Hr|now apply Hel].
Qed.

(** ** The calibration fit, for the unit codes a plain object can hold *)

(** X22. For every calibration input and every unit code [U] that is not
    the name of a member of [Object.prototype], the slope table maps [U] to
    [sumXY / sumX2], the sums of [bag * net] and [bag^2] over the rows of
    [U] with a finite bag number and a finite net weight, exactly when
    [sumX2 > 0]; a unit with no such row, or with rows of bag number zero
    only, has no entry at all. Rows (1, 10), (3, 30), (5, 50) give the
    slope 10. *)
Theorem computeSlopesByKA_spec (prodRows : list Cal.row) (U : string) :
  U ∉ Object_prototype_keys ->
  computeSlopesByKA prodRows !! U = fitted_slope U prodRows
  /\ (is_Some (computeSlopesByKA prodRows !! U)
      <-> (0 <? sumX2_of (cal_rows_of U prodRows))%float = true)
  /\ (cal_rows_of U prodRows = [] -> computeSlopesByKA prodRows !! U = None)
  /\ (Forall (fun r => (asNumber (Cal.BAG r) =? 0)%float = true)
             (cal_rows_of U prodRows) ->
      computeSlopesByKA prodRows !! U = None)
  /\ computeSlopesByKA
       [Cal.mk (JString "U") (JNumber 1) (JNumber 10);
        Cal.mk (JString "U") (JNumber 3) (JNumber 30);
        Cal.mk (JString "U") (JNumber 5) (JNumber 50)] !! "U" = Some 10%float.
Proof.
  intros HU.
  assert (Hspec : computeSlopesByKA prodRows !! U = fitted_slope U prodRows).
  { rewrite computeSlopesByKA_lookup. unfold inherited.
    now rewrite bool_decide_eq_false_2. }
  split; [exact Hspec|]. split; [|split; [|split]].
  - rewrite Hspec. unfold fitted_slope. cbv zeta.
    destruct (0 <? sumX2_of (cal_rows_of U prodRows))%float.
    + split; [reflexivity|]. intros _. eexists. reflexivity.
    + split; [intros [x Hx]; discriminate|discriminate].
  - intros E. rewrite Hspec. unfold fitted_slope. now rewrite E.
  - intros Hz. rewrite Hspec. unfold fitted_slope. cbv zeta.
    now rewrite (sumX2_of_zero _ Hz).
  - vm_compute. reflexivity.
Qed.

(** ** The order of the outputs *)

Lemma production_fields_known (cy : list CY.row) (prod : list Cal.row) :
  Forall (fun row => fields_in (field_values cy) (productionFields row))
         (fold_left (production_step (computeSlopesByKA prod))
                    (Object_values (fold_left groups_step cy [])) ([], [])).1.
Proof.
  apply Forall_forall. intros row Hrow.
  assert (Hin : row ∈ Production.rows (computeProductionFromCY cy prod))
    by (rewrite computeProductionFromCY_rows; now apply Array_sort_elem_of).
  apply rows_spec in Hin as (k & g & s & Hg & _ & _ & ->).
  apply group_record_first in Hg as (r & Hr & _ & _ & Hf).
  change (productionFields (production_row g s)) with (groupFields g).
  rewrite Hf. now apply field_values_elem.
Qed.

(** X23. Where the comparison of the host orders the field values of the
    yield rows and tells them apart, the rows the template builder returns,
    and the result rows of the production aggregator, are in ascending
    order of allotment, then pasture, then date, then unit code. *)
Theorem outputs_sorted (cyRowsProcessed : list CY.row) (prodRows : list Cal.row) :
  Collates (field_values cyRowsProcessed) ->
  StronglySorted (fun a b => fields_le (templateFields a) (templateFields b))
    (makeProductionTemplateRows cyRowsProcessed)
  /\ StronglySorted
       (fun a b => fields_le (productionFields a) (productionFields b))
       (Production.rows (computeProductionFromCY cyRowsProcessed prodRows)).
Proof.
  intros Hcol. split.
  - apply (sorted_by_fields (field_values cyRowsProcessed) Hcol).
    apply template_fields_known.
  - rewrite computeProductionFromCY_rows.
    apply (sorted_by_fields (field_values cyRowsProcessed) Hcol).
    apply production_fields_known.
Qed.

End App.

(** * Closed instances

    The statements above at the sample host and on the sample rows. *)

(** ** Rounding *)

(** C4, as stated, fails: at -2.5 with no decimals [round] gives -2 (the tie
    goes toward +infinity) where rounding half away from zero gives -3; at
    -0.125 with two decimals it gives -0.12 where the rule gives -0.13. Both
    scaled values, -2.5 and -12.5, are negative ties. *)
Lemma round_half_away_counterexample :
  negative_tie (-2.5 * hostMath_pow10 0) = true
  /\ negative_tie (-0.125 * hostMath_pow10 2) = true
  /\ round hostStringToNumber hostMath_pow10 (JNumber (-2.5)) 0 = JNumber (-2)
  /\ toRoundedNumber_spec hostStringToNumber hostMath_pow10 (JNumber (-2.5)) 0
     = JNumber (-3)
  /\ round hostStringToNumber hostMath_pow10 (JNumber (-0.125)) 2
     = JNumber (-0.12)
  /\ toRoundedNumber_spec hostStringToNumber hostMath_pow10
       (JNumber (-0.125)) 2 = JNumber (-0.13)
  /\ round hostStringToNumber hostMath_pow10 (JNumber (-2.5)) 0
     <> toRoundedNumber_spec hostStringToNumber hostMath_pow10
          (JNumber (-2.5)) 0.
Proof.
  repeat split; try (vm_compute; reflexivity).
  intros H.
  apply (f_equal (fun v => match v with
                           | JNumber x => PrimFloat.eqb x (-2)
                           | _ => false
                           end)) in H.
  vm_compute in H. discriminate.
Qed.

(** C4, witness: [toRoundedNumber(1115.2245, 2)] is 1115.22 under both
    rules, and the two rules agree at -836.418, a negative value that is no
    tie. *)
Lemma round_half_up_spec_witness :
  round hostStringToNumber hostMath_pow10 (JNumber 1115.2245) 2
  = JNumber 1115.22
  /\ round hostStringToNumber hostMath_pow10 (JNumber 1115.2245) 2
     = toRoundedNumber_spec hostStringToNumber hostMath_pow10
         (JNumber 1115.2245) 2
  /\ round hostStringToNumber hostMath_pow10 (JNumber (-836.418)) 2
     = toRoundedNumber_spec hostStringToNumber hostMath_pow10
         (JNumber (-836.418)) 2.
Proof.
  destruct (round_half_up_spec hostStringToNumber hostMath_pow10
              (JNumber 1115.2245) 2) as (H1 & _ & H3).
  destruct (round_half_up_spec hostStringToNumber hostMath_pow10
              (JNumber (-836.418)) 2) as (_ & _ & H4).
  split; [|split].
  - rewrite H1. vm_compute. reflexivity.
  - apply H3. left. vm_compute. reflexivity.
  - apply H4. right. vm_compute. reflexivity.
Defined.

(** ** Unit codes *)

(** C8: the examples of the specification, and an identifier on which the
    source departs from it. After the first letter of "A", a line feed,
    "B" the pattern [.*$] cannot reach the end, so the match starts at the
    second letter: [extractKA] gives "B", where the substring from the first
    alphabetic character is the whole identifier. With only "A" and a line
    feed there is no match at all and the result is empty. *)
Lemma extractKA_line_terminator :
  extractKA hostNumberToString hostDateToString
    (JString "03-01-01-00112-001-C3") = "C3"
  /\ extractKA hostNumberToString hostDateToString (JString "00112-001") = ""
  /\ extractKA hostNumberToString hostDateToString
       (JString (String "A" (String "010" "B"))) = "B"
  /\ from_first_letter (String "A" (String "010" "B"))
     = String "A" (String "010" "B")
  /\ extractKA hostNumberToString hostDateToString
       (JString (String "A" (String "010" ""))) = ""
  /\ from_first_letter (String "A" (String "010" ""))
     = String "A" (String "010" "").
Proof. repeat split. Qed.

(** ** Hierarchy paths *)


(** A segment that is the bare word, or ends with the word unseparated, is
    not stripped: the pattern asks for white space before the word. The
    word is found in any case, and a third segment is not read. *)
Lemma parseAncestry_bare_word :
  parseAncestry hostNumberToString hostDateToString
    (JString "Allotment > North-Pasture")
  = mkAncestry "Allotment" "North-Pasture"
  /\ parseAncestry hostNumberToString hostDateToString
       (JString "Bear Flat ALLOTMENT>North   pasture > 7")
     = mkAncestry "Bear Flat" "North".
Proof. split; reflexivity. Qed.

(** ** Slopes *)

(** C3: a unit code that names a member of [Object.prototype]. For the
    rows (1, 10), (3, 30), (5, 50) of the unit "constructor" the read
    [perKA["constructor"]] finds the inherited function, no accumulator is
    made, and the slope table has no entry for the unit, where the sums
    over its rows give the slope 10; the production of a yield row of the
    unit is not computed, and the unit is reported without calibration. *)
Lemma computeSlopesByKA_prototype_key :
  "constructor" ∈ Object_prototype_keys
  /\ computeSlopesByKA hostStringToNumber hostNumberToString hostDateToString
       constructor_calibration !! "constructor" = None
  /\ fitted_slope hostStringToNumber hostNumberToString hostDateToString
       "constructor" constructor_calibration = Some 10%float
  /\ Production.rows
       (computeProductionFromCY hostStringToNumber hostNumberToString
          hostDateToString hostLocaleCompare hostMath_pow10 [unit_constructor_row]
          constructor_calibration) = []
  /\ Production.missingKAs
       (computeProductionFromCY hostStringToNumber hostNumberToString
          hostDateToString hostLocaleCompare hostMath_pow10 [unit_constructor_row]
          constructor_calibration) = ["constructor"].
Proof. split; [now left|]. repeat split; vm_compute; reflexivity. Qed.

(** X22, witness: on the sample calibration the unit U has the slope 10
    and a unit with no rows has no entry. *)
Lemma computeSlopesByKA_spec_witness :
  computeSlopesByKA hostStringToNumber hostNumberToString hostDateToString
    sample_calibration !! "U" = Some 10%float
  /\ computeSlopesByKA hostStringToNumber hostNumberToString hostDateToString
       sample_calibration !! "C4" = None.
Proof.
  split.
  - destruct (computeSlopesByKA_spec hostStringToNumber hostNumberToString
                hostDateToString sample_calibration "U") as (H & _).
    + intros Hin. apply (bool_decide_pack _) in Hin. vm_compute in Hin.
      exact Hin.
    + rewrite H. vm_compute. reflexivity.
  - destruct (computeSlopesByKA_spec hostStringToNumber hostNumberToString
                hostDateToString sample_calibration "C4") as (_ & _ & H & _).
    + intros Hin. apply (bool_decide_pack _) in Hin. vm_compute in Hin.
      exact Hin.
    + apply H. vm_compute. reflexivity.
Defined.

(** ** The comparison by code units is a strict total order *)

Lemma string_compare_refl (s : string) : String.compare s s = Eq.
Proof.
  induction s as [|c s IH]; simpl; [reflexivity|].
  unfold Ascii.compare. now rewrite N.compare_refl.
Qed.

Lemma hostLocaleCompare_eq (a b : string) : hostLocaleCompare a b = 0 <-> a = b.
Proof.
  unfold hostLocaleCompare. split.
  - destruct (String.compare a b) eqn:E; try discriminate.
    intros _. now apply String.compare_eq_iff.
  - intros ->. now rewrite string_compare_refl.
Qed.

Lemma hostLocaleCompare_antisym (a b : string) :
  hostLocaleCompare a b < 0 <-> 0 < hostLocaleCompare b a.
Proof.
  unfold hostLocaleCompare. rewrite (String.compare_antisym a b).
  destruct (String.compare b a); simpl; lia.
Qed.

Lemma hostLocaleCompare_lt (a b : string) :
  hostLocaleCompare a b < 0 <-> String.compare a b = Lt.
Proof.
  unfold hostLocaleCompare.
  destruct (String.compare a b); split; (discriminate || lia || reflexivity).
Qed.

Lemma hostLocaleCompare_trans (a b c : string) :
  hostLocaleCompare a b < 0 -> hostLocaleCompare b c < 0 ->
  hostLocaleCompare a c < 0.
Proof.
  rewrite !hostLocaleCompare_lt. intros Hab Hbc.
  assert (Hle : String.le a c).
  { transitivity b; unfold String.le, String.leb; [now rewrite Hab|now rewrite Hbc]. }
  unfold String.le, String.leb in Hle.
  destruct (String.compare a c) eqn:Hac; [|reflexivity|now simpl in Hle].
  apply String.compare_eq_iff in Hac. subst c.
  rewrite String.compare_antisym, Hab in Hbc. discriminate.
Qed.

(** ** Sorted outputs *)

Lemma hostLocaleCompare_Collates (l : list string) :
  Collates hostLocaleCompare l.
Proof.
  split; [|split].
  - intros a b _ _. apply hostLocaleCompare_eq.
  - intros a b _ _. apply hostLocaleCompare_antisym.
  - intros a b c _ _ _. apply hostLocaleCompare_trans.
Qed.

(** X23, witness: the two outputs for the sample rows, under the
    comparison by code units. *)
Lemma outputs_sorted_witness :
  StronglySorted
    (fun a b => fields_le hostLocaleCompare (templateFields a) (templateFields b))
    (makeProductionTemplateRows hostLocaleCompare sample_yield)
  /\ StronglySorted
       (fun a b =>
          fields_le hostLocaleCompare (productionFields a) (productionFields b))
       (Production.rows
          (computeProductionFromCY hostStringToNumber hostNumberToString
             hostDateToString hostLocaleCompare hostMath_pow10 sample_yield
             sample_calibration)).
Proof.
  exact (outputs_sorted hostStringToNumber hostNumberToString hostDateToString
           hostLocaleCompare hostMath_pow10 sample_yield sample_calibration
           (hostLocaleCompare_Collates (field_values sample_yield))).
Defined.

(** C6: two allotments that the collation does not tell apart. The names
    "A" followed by U+0001 and "A" differ, so the comparator of the sort
    answers with their comparison, which is 0, and never looks at the
    pasture: the lines of pasture "Z" stay before those of pasture "B" in
    both outputs, which are sorted neither with the two allotments taken
    as equal nor by the order of their fields. The first name is what
    [parseAncestry] gives for a cell that holds it. *)
Lemma outputs_unsorted_on_tie :
  parseAncestry hostNumberToString hostDateToString
    (JString (A_ignorable +:+ " > Z")) = mkAncestry A_ignorable "Z"
  /\ A_ignorable <> "A"
  /\ collatingLocaleCompare A_ignorable "A" = 0
  /\ 0 < collatingLocaleCompare "Z" "B"
  /\ Template.PASTURE <$>
       makeProductionTemplateRows collatingLocaleCompare tied_yield
     = ["Z"; "Z"; "Z"; "B"; "B"; "B"]
  /\ Production.PASTURE <$>
       Production.rows
         (computeProductionFromCY hostStringToNumber hostNumberToString
            hostDateToString collatingLocaleCompare hostMath_pow10 tied_yield
            calibration_K1)
     = ["Z"; "B"]
  /\ ~ StronglySorted
        (fun a b => fields_le collatingLocaleCompare
                      (templateFields a) (templateFields b))
        (makeProductionTemplateRows collatingLocaleCompare tied_yield)
  /\ ~ StronglySorted
        (fun a b => fields_le collatingLocaleCompare
                      (productionFields a) (productionFields b))
        (Production.rows
           (computeProductionFromCY hostStringToNumber hostNumberToString
              hostDateToString collatingLocaleCompare hostMath_pow10
              tied_yield calibration_K1)).
Proof.
  assert (Hno : ~ fields_le collatingLocaleCompare
                    (A_ignorable, "Z", "2025-09-30", "K1")
                    ("A", "B", "2025-09-30", "K1")).
  { unfold fields_le, str_lt. intros [H|[H _]]; [|discriminate H].
    vm_compute in H. discriminate H. }
  split; [reflexivity|]. split; [discriminate|].
  split; [reflexivity|]. split; [reflexivity|].
  split; [vm_compute; reflexivity|]. split; [vm_compute; reflexivity|].
  split.
  - intros Hs.
    assert (Hl : exists l,
               makeProductionTemplateRows collatingLocaleCompare tied_yield
               = Template.mk "2025-09-30" A_ignorable "Z" "K1" 1 "" "" "" ""
                 :: l
               /\ Template.mk "2025-09-30" "A" "B" "K1" 1 "" "" "" "" ∈ l).
    { eexists. split; [vm_compute; reflexivity|]. do 2 right. now left. }
    destruct Hl as (l & El & Hin). rewrite El in Hs.
    apply StronglySorted_inv in Hs as [_ Hall].
    rewrite Forall_forall in Hall. exact (Hno (Hall _ Hin)).
  - intros Hs.
    assert (Hl : exists x y,
               Production.rows
                 (computeProductionFromCY hostStringToNumber
                    hostNumberToString hostDateToString
                    collatingLocaleCompare hostMath_pow10 tied_yield
                    calibration_K1) = [x; y]
               /\ productionFields x = (A_ignorable, "Z", "2025-09-30", "K1")
               /\ productionFields y = ("A", "B", "2025-09-30", "K1")).
    { do 2 eexists. split; [vm_compute; reflexivity|]. split; reflexivity. }
    destruct Hl as (x & y & El & Hx & Hy). rewrite El in Hs.
    apply StronglySorted_inv in Hs as [_ Hall].
    apply Forall_cons in Hall as [Hxy _]. rewrite Hx, Hy in Hxy.
    exact (Hno Hxy).
Qed.

(** ** Production rows *)

Lemma KeyInjective_singleton (r : CY.row) : KeyInjective [r].
Proof.
  intros r1 r2 ->%list_elem_of_singleton ->%list_elem_of_singleton _.
  now repeat split.
Qed.

(** C1, witness: for the slope 10 fitted from (1, 10), (3, 30), (5, 50) and
    the average yield value 2 the production is 1115.22. *)
Lemma production_row_emitted_witness :
  production_row_of hostStringToNumber hostMath_pow10 unit_U_row [unit_U_row] 10
  = Production.mk "2025-09-30" "Turkey Creek" "Turkey Creek" "U"
      (JNumber 2) (JNumber 10) (JNumber 1115.22)
  /\ production_row_of hostStringToNumber hostMath_pow10 unit_U_row [unit_U_row] 10
     ∈ Production.rows
         (computeProductionFromCY hostStringToNumber hostNumberToString
            hostDateToString hostLocaleCompare hostMath_pow10 [unit_U_row] sample_calibration).
Proof.
  split; [vm_compute; reflexivity|].
  apply (production_row_emitted hostStringToNumber hostNumberToString
           hostDateToString hostLocaleCompare hostMath_pow10 [unit_U_row] sample_calibration
           unit_U_row 10).
  - apply KeyInjective_singleton.
  - now left.
  - vm_compute. reflexivity.
  - vm_compute. reflexivity.
  - vm_compute. reflexivity.
Defined.

(** C1, as stated, fails: two rows (1, 1e308) of unit U sum to an infinite
    [sumXY], the slope table has the entry [Infinity] for U, and the group
    of U gets no output row: it is listed as missing its calibration. *)
Lemma production_row_counterexample :
  unit_U_row ∈ [unit_U_row]
  /\ eligible hostStringToNumber unit_U_row = true
  /\ computeSlopesByKA hostStringToNumber hostNumberToString hostDateToString
       overflowing_calibration !! "U" = Some PrimFloat.infinity
  /\ Production.rows
       (computeProductionFromCY hostStringToNumber hostNumberToString
          hostDateToString hostLocaleCompare hostMath_pow10 [unit_U_row]
          overflowing_calibration) = []
  /\ Production.missingKAs
       (computeProductionFromCY hostStringToNumber hostNumberToString
          hostDateToString hostLocaleCompare hostMath_pow10 [unit_U_row]
          overflowing_calibration) = ["U"].
Proof. split; [now left|]. repeat split; vm_compute; reflexivity. Qed.

(** ** Missing calibration *)

(** C2, witness: the unit C4 has yield data and no calibration; it is
    listed as missing and has no output row. *)
Lemma missing_calibration_spec_witness :
  "C4" ∈ Production.missingKAs
           (computeProductionFromCY hostStringToNumber hostNumberToString
              hostDateToString hostLocaleCompare hostMath_pow10 [unit_C4_row]
              sample_calibration)
  /\ forall row,
       row ∈ Production.rows
               (computeProductionFromCY hostStringToNumber hostNumberToString
                  hostDateToString hostLocaleCompare hostMath_pow10 [unit_C4_row]
                  sample_calibration) ->
       Production.KA row <> "C4".
Proof.
  destruct (missing_calibration_spec hostStringToNumber hostNumberToString
              hostDateToString hostLocaleCompare hostMath_pow10 [unit_C4_row]
              sample_calibration "C4") as [H1 H2].
  - vm_compute. reflexivity.
  - split; [|exact H2].
    apply (H1 unit_C4_row); [apply KeyInjective_singleton|now left| |reflexivity].
    vm_compute. reflexivity.
Defined.

(** C2, as stated, fails: a yield row with a date and the unit code C3 but
    no yield value (the column is absent, or holds text) forms no group;
    with no calibration for C3 the missing-calibration list is still
    empty. *)
Lemma missing_calibration_counterexample :
  CY.DATE unit_C3_no_value <> "" /\ CY.KA unit_C3_no_value = "C3"
  /\ computeSlopesByKA hostStringToNumber hostNumberToString hostDateToString
       sample_calibration !! "C3" = None
  /\ Production.missingKAs
       (computeProductionFromCY hostStringToNumber hostNumberToString
          hostDateToString hostLocaleCompare hostMath_pow10 [unit_C3_no_value]
          sample_calibration) = []
  /\ "C3" ∉ Production.missingKAs
       (computeProductionFromCY hostStringToNumber hostNumberToString
          hostDateToString hostLocaleCompare hostMath_pow10 [unit_C3_no_value]
          sample_calibration).
Proof.
  split; [discriminate|]. split; [reflexivity|].
  split; [vm_compute; reflexivity|]. split; [vm_compute; reflexivity|].
  intros H. vm_compute in H. now apply elem_of_nil in H.
Qed.

(** ** Template rows *)

(** C5: two yield rows with different (allotment, pasture) whose joined
    keys are the same string. The template has the three rows of the first
    and none for the second. *)
Lemma template_key_collision :
  key_of (CY.mk "2025-09-30" "A||B" "C" "K1" (JNumber 1))
  = key_of (CY.mk "2025-09-30" "A" "B||C" "K1" (JNumber 3))
  /\ makeProductionTemplateRows hostLocaleCompare colliding_yield
     = [Template.mk "2025-09-30" "A||B" "C" "K1" 1 "" "" "" "";
        Template.mk "2025-09-30" "A||B" "C" "K1" 3 "" "" "" "";
        Template.mk "2025-09-30" "A||B" "C" "K1" 5 "" "" "" ""].
Proof. split; vm_compute; reflexivity. Qed.

(** The same two rows in the aggregator: one group, under the fields of the
    first row, that averages the yield values 1 and 3 of both. *)
Lemma groups_key_collision :
  Production.rows
    (computeProductionFromCY hostStringToNumber hostNumberToString
       hostDateToString hostLocaleCompare hostMath_pow10 colliding_yield calibration_K1)
  = [Production.mk "2025-09-30" "A||B" "C" "K1"
       (JNumber 2) (JNumber 10) (JNumber 1115.22)]
  /\ ~ KeyInjective colliding_yield.
Proof.
  split; [vm_compute; reflexivity|].
  intros H.
  destruct (H (CY.mk "2025-09-30" "A||B" "C" "K1" (JNumber 1))
              (CY.mk "2025-09-30" "A" "B||C" "K1" (JNumber 3)))
    as (_ & HA & _).
  - now left.
  - right. now left.
  - reflexivity.
  - discriminate HA.
Qed.

(** * Further properties, at sample inputs *)

(** X4, witness: the 30th of September 2025 (month 8 of the host). *)
Lemma normalizeDate_iso_witness :
  normalizeDate (JDateObj sample_date) = "2025-09-30"
  /\ is_iso_date (normalizeDate (JDateObj sample_date)) = true.
Proof.
  split; [reflexivity|].
  apply (normalizeDate_iso sample_date); [reflexivity|simpl; lia..].
Defined.

(** X5, witness: the sample rows, given twice. *)
Lemma template_covered_rows_witness :
  makeProductionTemplateRows hostLocaleCompare (sample_yield ++ sample_yield)
  = makeProductionTemplateRows hostLocaleCompare sample_yield.
Proof.
  apply (template_covered_rows hostLocaleCompare sample_yield sample_yield).
  intros r' Hr' Hu. now exists r'.
Defined.

(** X7, witness: the lines of unit C4 in the template of the sample rows. *)
Lemma template_bag_order_witness :
  filter (fun u => templateFields u = ("Bear Flat", "North", "2025-09-30", "C4"))
         (makeProductionTemplateRows hostLocaleCompare sample_yield)
  = [Template.mk "2025-09-30" "Bear Flat" "North" "C4" 1 "" "" "" "";
     Template.mk "2025-09-30" "Bear Flat" "North" "C4" 3 "" "" "" "";
     Template.mk "2025-09-30" "Bear Flat" "North" "C4" 5 "" "" "" ""].
Proof.
  apply (template_bag_order hostLocaleCompare sample_yield
           (Template.mk "2025-09-30" "Bear Flat" "North" "C4" 1 "" "" "" "")).
  - apply hostLocaleCompare_Collates.
  - vm_compute. now left.
Defined.

(** X13, witness: a file with one yield row and a file without the sheet. *)
Lemma handleUploadRaw_appends_witness :
  handleUploadRaw hostNumberToString hostDateToString sample_raw_files
                  initialState
  = App.mk [unit_U_row] [] "Loaded 1 Comparative Yield rows.".
Proof.
  rewrite (handleUploadRaw_appends hostNumberToString hostDateToString
             sample_raw_files initialState).
  - reflexivity.
  - repeat constructor; eexists; reflexivity.
  - discriminate.
Defined.

(** X14, witness: a file whose first sheet holds the sample calibration. *)
Lemma handleUploadProduction_appends_witness :
  handleUploadProduction sample_production_files initialState
  = App.mk [] sample_calibration "Loaded 3 production rows.".
Proof.
  rewrite (handleUploadProduction_appends sample_production_files initialState).
  - reflexivity.
  - repeat constructor; eexists; reflexivity.
  - discriminate.
Defined.

(** X15, witness: the two sample files, one after the other. *)
Lemma handleUploadRaw_batches_witness :
  handleUploadRaw hostNumberToString hostDateToString [Some [("Notes", [])]]
    (handleUploadRaw hostNumberToString hostDateToString
       [Some sample_raw_workbook] initialState)
  = handleUploadRaw hostNumberToString hostDateToString sample_raw_files
      initialState.
Proof.
  apply (handleUploadRaw_batches hostNumberToString hostDateToString
           [Some sample_raw_workbook] [Some [("Notes", [])]] initialState).
  repeat constructor; eexists; reflexivity.
Defined.

(** X16, witness: the row held after an upload, two exports and a failed
    upload. *)
Lemma stored_rows_clean_witness :
  clean_KA (CY.KA unit_U_row) = true
  /\ clean_name (CY.ALLOTMENT unit_U_row) = true
  /\ clean_name (CY.PASTURE unit_U_row) = true.
Proof.
  apply (stored_rows_clean hostStringToNumber hostNumberToString
           hostDateToString hostLocaleCompare hostMath_pow10
           [UploadRaw sample_raw_files; ExportTemplate; ExportProduction;
            UploadRaw [None]]
           unit_U_row).
  vm_compute. now left.
Defined.

(** X19, witness: the sample files, uploaded twice. *)
Lemma reupload_keeps_template_witness :
  (handleExportTemplate hostLocaleCompare
     (handleUploadRaw hostNumberToString hostDateToString sample_raw_files
        (handleUploadRaw hostNumberToString hostDateToString sample_raw_files
           initialState))).2
  = (handleExportTemplate hostLocaleCompare
       (handleUploadRaw hostNumberToString hostDateToString sample_raw_files
          initialState)).2.
Proof.
  apply (reupload_keeps_template hostNumberToString hostDateToString
           hostLocaleCompare sample_raw_files initialState).
  repeat constructor; eexists; reflexivity.
Defined.

(** X21, witness: the unit C4, reported without calibration for the sample
    rows, is among the units counted. *)
Lemma exported_units_counted_witness : "C4" ∈ cyKAs sample_yield.
Proof.
  apply (exported_units_counted hostStringToNumber hostNumberToString
           hostDateToString hostLocaleCompare hostMath_pow10 sample_yield sample_calibration).
  right; right. vm_compute. now left.
Defined.
